(** * Rating and paired-evaluation engine

    A shallow embedding of [amm_competition/competition/elo.py] (the Elo
    rating system) and of the statistical core and staged search protocol of
    [scripts/paired_eval.py].

    Python floats are idealised as real numbers; the one non-finite value the
    code can produce from finite inputs, numpy's [nan] for the mean of an
    empty array, is kept as an explicit constructor.  Python exceptions are
    results of type [result]; state that was mutated before an exception is
    raised stays mutated. *)

From Stdlib Require Import Reals Lra Lia ZArith List.
From stdpp Require Import base option list sorting gmap strings.
From Stdlib Require Import QArith Qfield.

Open Scope R_scope.

#[local] Set Warnings "-clear-no-such-hyp".

(** ** Exceptions and results *)

Inductive exn : Type :=
| ValueError    (* math.log outside its domain, float on a bad numeral *)
| CompileError  (* EVMStrategyAdapter.from_source failed *)
| OSError.      (* a subprocess could not be started *)

Inductive result (A : Type) : Type :=
| Ok (a : A)
| Raise (e : exn).
Arguments Ok {A} a.
Arguments Raise {A} e.

Definition is_ok {A : Type} (r : result A) : bool :=
  match r with Ok _ => true | Raise _ => false end.

(** Boolean comparisons on reals, as Python's [<], [>] on finite floats. *)
Definition Rltb (x y : R) : bool := if Rlt_dec x y then true else false.
Definition Rleb (x y : R) : bool := if Rle_dec x y then true else false.

(** [math.log]: a [ValueError] outside the positive reals. *)
Definition math_log (x : R) : result R :=
  if Rltb 0 x then Ok (ln x) else Raise ValueError.

(** ** elo.py *)

Module Elo.

Record PlayerRating : Type := mkPlayerRating {
  name : string;
  rating : R;
  matches_played : Z;
  wins : Z;
  losses : Z;
  draws : Z
}.

(** [EloRating.__init__]: three configuration floats and the rating dict. *)
Record EloRating : Type := mkEloRating {
  initial_rating : R;
  k_factor : R;
  mov_factor : R;
  ratings : gmap string PlayerRating
}.

Definition init (ir k mov : R) : EloRating := mkEloRating ir k mov ∅.

Definition with_ratings (self : EloRating) (m : gmap string PlayerRating)
  : EloRating :=
  mkEloRating (initial_rating self) (k_factor self) (mov_factor self) m.

(** The object [PlayerRating(name=name, rating=self.initial_rating)]. *)
Definition new_player (self : EloRating) (nm : string) : PlayerRating :=
  mkPlayerRating nm (initial_rating self) 0 0 0 0.

(** [get_rating]: the dict entry, created when absent.  The Python method
    returns a reference to the stored object; here the reference is the key
    and [get_rating] returns the store together with the object read. *)
Definition get_rating (self : EloRating) (nm : string)
  : PlayerRating * EloRating :=
  match ratings self !! nm with
  | Some p => (p, self)
  | None =>
      (new_player self nm,
       with_ratings self (<[nm := new_player self nm]> (ratings self)))
  end.

(** Reading through a reference obtained from [get_rating]. *)
Definition deref (self : EloRating) (nm : string) : PlayerRating :=
  fst (get_rating self nm).

(** Attribute updates through a reference: the object stored under the key
    is changed in place, so two references to one object see each other's
    writes. *)
Definition update (f : PlayerRating -> PlayerRating) (nm : string)
    (self : EloRating) : EloRating :=
  with_ratings self (alter f nm (ratings self)).

Definition add_wins (p : PlayerRating) : PlayerRating :=
  mkPlayerRating (name p) (rating p) (matches_played p)
                 (wins p + 1) (losses p) (draws p).
Definition add_losses (p : PlayerRating) : PlayerRating :=
  mkPlayerRating (name p) (rating p) (matches_played p)
                 (wins p) (losses p + 1) (draws p).
Definition add_draws (p : PlayerRating) : PlayerRating :=
  mkPlayerRating (name p) (rating p) (matches_played p)
                 (wins p) (losses p) (draws p + 1).
Definition add_matches (p : PlayerRating) : PlayerRating :=
  mkPlayerRating (name p) (rating p) (matches_played p + 1)
                 (wins p) (losses p) (draws p).
Definition add_rating (d : R) (p : PlayerRating) : PlayerRating :=
  mkPlayerRating (name p) (rating p + d) (matches_played p)
                 (wins p) (losses p) (draws p).

(** [win_rate] property. *)
Definition win_rate (p : PlayerRating) : R :=
  if (matches_played p =? 0)%Z then 0
  else IZR (wins p) / IZR (matches_played p).

(** [expected_score]: [1.0 / (1.0 + 10 ** ((rating_b - rating_a) / 400))]. *)
Definition expected_score (rating_a rating_b : R) : R :=
  1 / (1 + Rpower 10 ((rating_b - rating_a) / 400)).

Definition get_k_factor (self : EloRating) (player : PlayerRating) : R :=
  if (matches_played player <? 10)%Z then k_factor self * 1.5
  else if (matches_played player <? 30)%Z then k_factor self
  else k_factor self * 0.75.

(** [margin_multiplier]; [/] on two ints is true division. *)
Definition margin (winner_score loser_score total_games : Z) : R :=
  IZR (winner_score - loser_score) / IZR total_games.

Definition margin_multiplier (self : EloRating)
    (winner_score loser_score total_games : Z) : result R :=
  if (total_games =? 0)%Z then Ok 1
  else
    match math_log (1 + margin winner_score loser_score total_games * 2) with
    | Ok l => Ok (1 + mov_factor self * l)
    | Raise e => Raise e
    end.

(** The part of [update_ratings] after the multiplier is known: expected
    scores from the current ratings, both K-factors, the two rating updates
    and the two match counters. *)
Definition apply_update (self : EloRating) (player_a player_b : string)
    (actual_a actual_b multiplier : R) : (R * R) * EloRating :=
  let expected_a :=
    expected_score (rating (deref self player_a))
                   (rating (deref self player_b)) in
  let expected_b := 1 - expected_a in
  let k_a := get_k_factor self (deref self player_a) in
  let k_b := get_k_factor self (deref self player_b) in
  let self :=
    update (add_rating (k_a * multiplier * (actual_a - expected_a)))
           player_a self in
  let self :=
    update (add_rating (k_b * multiplier * (actual_b - expected_b)))
           player_b self in
  let self := update add_matches player_a self in
  let self := update add_matches player_b self in
  ((rating (deref self player_a), rating (deref self player_b)), self).

Definition update_ratings (self : EloRating) (player_a player_b : string)
    (score_a score_b : Z) : result (R * R) * EloRating :=
  let self := snd (get_rating self player_a) in
  let self := snd (get_rating self player_b) in
  let total_games := (score_a + score_b)%Z in
  if (total_games =? 0)%Z then
    (Ok (rating (deref self player_a), rating (deref self player_b)), self)
  else if (score_b <? score_a)%Z then
    let self := update add_wins player_a self in
    let self := update add_losses player_b self in
    match margin_multiplier self score_a score_b total_games with
    | Raise e => (Raise e, self)
    | Ok multiplier =>
        let '(r, self) := apply_update self player_a player_b 1 0 multiplier in
        (Ok r, self)
    end
  else if (score_a <? score_b)%Z then
    let self := update add_losses player_a self in
    let self := update add_wins player_b self in
    match margin_multiplier self score_b score_a total_games with
    | Raise e => (Raise e, self)
    | Ok multiplier =>
        let '(r, self) := apply_update self player_a player_b 0 1 multiplier in
        (Ok r, self)
    end
  else
    let self := update add_draws player_a self in
    let self := update add_draws player_b self in
    let '(r, self) := apply_update self player_a player_b 0.5 0.5 1 in
    (Ok r, self).

(** The counter invariant of the data model, for every stored player. *)
Definition counters_ok (p : PlayerRating) : Prop :=
  (wins p + losses p + draws p = matches_played p)%Z.

Definition invariant (self : EloRating) : Prop :=
  forall (nm : string) (p : PlayerRating),
    ratings self !! nm = Some p -> counters_ok p.

(** States reached from a fresh rating system by calls that return. *)
Inductive reachable : EloRating -> Prop :=
| reach_init (ir k mov : R) : reachable (init ir k mov)
| reach_get (self : EloRating) (nm : string) :
    reachable self -> reachable (snd (get_rating self nm))
| reach_update (self : EloRating) (a b : string) (sa sb : Z) :
    reachable self ->
    is_ok (fst (update_ratings self a b sa sb)) = true ->
    reachable (snd (update_ratings self a b sa sb)).

(** The inputs [margin_multiplier] is meant for. *)
Definition valid (self : EloRating) (w l t : Z) : Prop :=
  0 <= mov_factor self /\ (0 <= l <= w)%Z /\ (w - l <= t)%Z /\ (0 < t)%Z.

(** By how much a record's outcome counters run ahead of its match
    counter; [update_ratings] first raises it (an outcome counter per
    reference) and then lowers it again (the match counter per reference). *)
Definition slack (p : PlayerRating) : Z :=
  (wins p + losses p + draws p - matches_played p)%Z.

Definition bump (nm : string) (z : Z) (d : string -> Z) : string -> Z :=
  fun k => if decide (k = nm) then (d k + z)%Z else d k.

Definition slack_is (d : string -> Z) (self : EloRating) : Prop :=
  forall (k : string) (p : PlayerRating),
    ratings self !! k = Some p -> slack p = d k.

End Elo.

(** ** scripts/paired_eval.py *)

Module PairedEval.

(** A Python/numpy float: a finite value or [nan]. *)
Inductive pyfloat : Type :=
| Fin (x : R)
| NaN.

Definition is_fin (a : pyfloat) : Prop :=
  match a with Fin _ => True | NaN => False end.

(** Comparisons; every comparison with [nan] is [False]. *)
Definition flt (a b : pyfloat) : bool :=
  match a, b with Fin x, Fin y => Rltb x y | _, _ => false end.
Definition fgt (a b : pyfloat) : bool := flt b a.
Definition fle (a b : pyfloat) : bool :=
  match a, b with Fin x, Fin y => Rleb x y | _, _ => false end.
Definition fge (a b : pyfloat) : bool := fle b a.

(** Arithmetic; [nan] propagates.  Both divisions of [paired_compare] are
    guarded by a strictly positive divisor, so Python's [ZeroDivisionError]
    is out of reach there; a zero divisor is mapped to [nan] rather than to
    a number. *)
Definition fsub (a b : pyfloat) : pyfloat :=
  match a, b with Fin x, Fin y => Fin (x - y) | _, _ => NaN end.
Definition fmul (a b : pyfloat) : pyfloat :=
  match a, b with Fin x, Fin y => Fin (x * y) | _, _ => NaN end.
Definition fdiv (a b : pyfloat) : pyfloat :=
  match a, b with
  | Fin x, Fin y => if Req_dec_T y 0 then NaN else Fin (x / y)
  | _, _ => NaN
  end.
Definition fabs (a : pyfloat) : pyfloat :=
  match a with Fin x => Fin (Rabs x) | NaN => NaN end.

(** [math.erf] and [math.erfc]: the error function
    [2/sqrt(pi) * integral of exp(-t^2) from 0 to x] for [x >= 0], extended
    to the negative reals as an odd function, and its complement. *)
Definition gauss (t : R) : R := exp (- (t * t)).

Definition gauss_integrable (a b : R) : Riemann_integrable gauss a b.
Proof.
  assert (C : forall x : R, continuity_pt gauss x).
  { intros x. apply derivable_continuous_pt. unfold gauss. reg. }
  destruct (Rle_dec a b) as [H | H].
  - apply continuity_implies_RiemannInt; auto.
  - apply RiemannInt_P1. apply continuity_implies_RiemannInt; [lra | auto].
Defined.

Definition erf_integral (x : R) : R :=
  2 / sqrt PI * RiemannInt (gauss_integrable 0 x).
Definition math_erf (x : R) : R :=
  if Rleb 0 x then erf_integral x else - erf_integral (- x).
Definition math_erfc (x : R) : R := 1 - math_erf x.

(** [_normal_cdf]: [0.5 * math.erfc(-x / math.sqrt(2))]. *)
Definition _normal_cdf (x : pyfloat) : pyfloat :=
  match x with
  | Fin x => Fin (0.5 * math_erfc (- x / sqrt 2))
  | NaN => NaN
  end.

(** numpy array operations on one-dimensional float arrays. *)
Fixpoint np_sum (a : list R) : R :=
  match a with
  | [] => 0
  | x :: a' => x + np_sum a'
  end.

(** [np.mean]: sum over count; [nan] (0.0/0) for an empty array. *)
Definition np_mean (a : list R) : pyfloat :=
  match a with
  | [] => NaN
  | _ :: _ => Fin (np_sum a / INR (length a))
  end.

(** [np.std(a, ddof=ddof)]: square root of the sum of squared deviations
    from the mean over [len(a) - ddof]; [nan] when that divisor is not
    positive. *)
Definition np_std (a : list R) (ddof : nat) : pyfloat :=
  if (length a <=? ddof)%nat then NaN
  else
    let m := np_sum a / INR (length a) in
    Fin (sqrt (np_sum (map (fun x => (x - m) * (x - m)) a)
               / (INR (length a) - INR ddof))).

(** [a - b] on two arrays of one shape (the input contract of
    [paired_compare]; numpy's broadcasting of other shapes is not needed). *)
Fixpoint np_sub (a b : list R) : list R :=
  match a, b with
  | x :: a', y :: b' => (x - y) :: np_sub a' b'
  | _, _ => []
  end.

(** [deltas > 0] read as numbers: [True] is 1.0 and [False] is 0.0. *)
Definition np_gt0 (a : list R) : list R :=
  map (fun d => if Rltb 0 d then 1 else 0) a.

(** The dict returned by [paired_compare]. *)
Record stats : Type := mkStats {
  n : nat;
  cand_mean : pyfloat;
  base_mean : pyfloat;
  mean_delta : pyfloat;
  se : pyfloat;
  t_stat : pyfloat;
  p_value : pyfloat;
  win_rate : pyfloat
}.

Definition paired_compare (cand_edges base_edges : list R) : stats :=
  let n := length cand_edges in
  let deltas := np_sub cand_edges base_edges in
  let mean_delta := np_mean deltas in
  let std_delta := if (1 <? n)%nat then np_std deltas 1 else Fin 0 in
  let se :=
    if (0 <? n)%nat then fdiv std_delta (Fin (sqrt (INR n))) else Fin 0 in
  let t_stat := if fgt se (Fin 0) then fdiv mean_delta se else Fin 0 in
  let p_value :=
    if fgt se (Fin 0)
    then fmul (Fin 2) (fsub (Fin 1) (_normal_cdf (fabs t_stat)))
    else Fin 1 in
  let win_rate := np_mean (np_gt0 deltas) in
  mkStats n (np_mean cand_edges) (np_mean base_edges)
          mean_delta se t_stat p_value win_rate.

(** *** The comparison as the specification words it

    Per-index deltas, their arithmetic mean, the sample standard deviation
    with divisor [n - 1], and the count of strictly positive deltas. *)
Definition spec_delta (cand base : list R) (i : nat) : R :=
  nth i cand 0 - nth i base 0.

Fixpoint big_sum (f : nat -> R) (k : nat) : R :=
  match k with
  | O => 0
  | S k' => big_sum f k' + f k'
  end.

Fixpoint count_upto (p : nat -> bool) (k : nat) : nat :=
  match k with
  | O => O
  | S k' => (count_upto p k' + if p k' then 1 else 0)%nat
  end.

Definition spec_mean_delta (cand base : list R) : R :=
  big_sum (spec_delta cand base) (length cand) / INR (length cand).

Definition spec_std_delta (cand base : list R) : R :=
  let k := length cand in
  if (1 <? k)%nat then
    sqrt (big_sum (fun i => Rsqr (spec_delta cand base i
                                  - spec_mean_delta cand base)) k
          / INR (k - 1))
  else 0.

Definition spec_se (cand base : list R) : R :=
  spec_std_delta cand base / sqrt (INR (length cand)).

Definition spec_t_stat (cand base : list R) : R :=
  if Rltb 0 (spec_se cand base)
  then spec_mean_delta cand base / spec_se cand base
  else 0.

(** The standard normal distribution function, through the error
    function. *)
Definition Phi (x : R) : R := (1 + math_erf (x / sqrt 2)) / 2.

Definition spec_p_value (cand base : list R) : R :=
  if Rltb 0 (spec_se cand base)
  then 2 * (1 - Phi (Rabs (spec_t_stat cand base)))
  else 1.

Definition spec_win_rate (cand base : list R) : R :=
  INR (count_upto (fun i => Rltb 0 (spec_delta cand base i)) (length cand))
  / INR (length cand).

(** *** The staged search protocol *)

(** A candidate dict of [_build_candidates]. *)
Record cand_def : Type := mkCand {
  name : string;
  family : string;
  template : string;
  params : list (string * string)
}.

Section Search.

(** The collaborators of [run_search].  [adapter] is the compiled artifact
    ([EVMStrategyAdapter]).  [compile_source] takes the source, as in the
    code, and either returns the artifact or raises.  [run_match k a] is
    [build_runner(k).run_match(a, normalizer, store_results=True)] followed
    by [extract_per_seed_edges]. *)
Variable adapter : Type.
Variable get_name : adapter -> string.
Variable generate_strategy : string -> list (string * string) -> string.
Variable compile_source : string -> result adapter.
Variable run_match : nat -> adapter -> list R.

(** The stats dict after the keys ["candidate"], ["baseline"] and ["def"]
    have been added to it. *)
Record stage_result : Type := mkStageResult {
  st : stats;
  candidate : string;
  baseline : string;
  def : cand_def
}.

Definition md (s : stage_result) : pyfloat := mean_delta (st s).

(** The lines printed by [_print_final_summary] after the ranking. *)
Inductive recommendation : Type :=
| NoCandidatesToReport           (* empty ranking: submit static 80 bps *)
| RecommendUse (cname : string)  (* "Recommendation: use ..." *)
| MarginalImprovement (cname : string)
      (* "Marginal improvement ... static 80 is also a strong choice" *)
| NoCandidateBeats.              (* "No candidate beats static 80 bps" *)

Definition recommends_baseline (r : recommendation) : bool :=
  match r with
  | NoCandidatesToReport | NoCandidateBeats => true
  | RecommendUse _ | MarginalImprovement _ => false
  end.

(** What [run_search] does that the outside can see. *)
Inductive event : Type :=
| EvCompileFailed (cname : string)      (* the COMPILE FAILED line *)
| EvRunMatch (stage : nat) (who : string) (* a simulation of that stage *)
| EvNoSurvivors   (* "No candidates survived Stage 1. Stopping." *)
| EvNoPositive    (* "No candidate shows positive mean delta after Stage 2." *)
| EvSummary (r : recommendation).

Definition _print_final_summary (results : list stage_result)
  : recommendation :=
  match results with
  | [] => NoCandidatesToReport
  | best :: _ =>
      if fgt (md best) (Fin 3) && fgt (fabs (t_stat (st best))) (Fin 1.5)
      then RecommendUse (candidate best)
      else if fgt (md best) (Fin 0)
      then MarginalImprovement (candidate best)
      else NoCandidateBeats
  end.

(** [results.sort(key=lambda s: s["mean_delta"], reverse=True)].  When every
    key is a number this is what [list.sort] returns: the results by
    decreasing key, equal keys in their order of entry.  When some key is
    [nan], [list.sort] still returns a permutation of the list, but which one
    depends on its merging, and only the permutation is meant here; what is
    proved about the order assumes keys that are numbers. *)
Fixpoint insert_desc (x : stage_result) (l : list stage_result)
  : list stage_result :=
  match l with
  | [] => [x]
  | y :: l' => if flt (md x) (md y) then y :: insert_desc x l' else x :: l
  end.

Fixpoint sort_desc (l : list stage_result) : list stage_result :=
  match l with
  | [] => []
  | x :: l' => insert_desc x (sort_desc l')
  end.

(** One evaluation: simulate, compare with the stage's baseline edges, tag. *)
Definition evaluate (n_sims : nat) (base_edges : list R) (a : adapter)
    (d : cand_def) : stage_result :=
  mkStageResult (paired_compare (run_match n_sims a) base_edges)
                (get_name a) "Static_80" d.

Definition source_of (d : cand_def) : string :=
  generate_strategy (template d) (params d).

(** The Stage 1 loop: a compile failure is caught, printed, and the loop
    goes on with the next candidate. *)
Fixpoint stage1_loop (n_sims : nat) (base_edges : list R)
    (candidates : list cand_def) : list stage_result * list event :=
  match candidates with
  | [] => ([], [])
  | cd :: rest =>
      match compile_source (source_of cd) with
      | Raise _ =>
          let '(rs, ev) := stage1_loop n_sims base_edges rest in
          (rs, EvCompileFailed (name cd) :: ev)
      | Ok a =>
          let '(rs, ev) := stage1_loop n_sims base_edges rest in
          (evaluate n_sims base_edges a cd :: rs,
           EvRunMatch 1 (get_name a) :: ev)
      end
  end.

(** The Stage 2 and Stage 3 loops: [compile_source] is called outside any
    [try], so its exception leaves the loop and [run_search]. *)
Fixpoint stage_loop (stage n_sims : nat) (base_edges : list R)
    (promoted : list stage_result)
  : result (list stage_result) * list event :=
  match promoted with
  | [] => (Ok [], [])
  | s :: rest =>
      match compile_source (source_of (def s)) with
      | Raise e => (Raise e, [])
      | Ok a =>
          let '(r, ev) := stage_loop stage n_sims base_edges rest in
          (match r with
           | Ok rs => Ok (evaluate n_sims base_edges a (def s) :: rs)
           | Raise e => Raise e
           end,
           EvRunMatch stage (get_name a) :: ev)
      end
  end.

(** Stage 1 selection: sort, drop [mean_delta < -5], keep the first 8. *)
Definition stage1_filtered (stage1_results : list stage_result)
  : list stage_result :=
  filter (fun s => fge (md s) (Fin (-5))) (sort_desc stage1_results).

Definition stage1_promoted (stage1_results : list stage_result)
  : list stage_result :=
  firstn 8 (stage1_filtered stage1_results).

(** Stage 2 selection. *)
Definition any_positive (stage2_results : list stage_result) : bool :=
  existsb (fun s => fgt (md s) (Fin 0)) (sort_desc stage2_results).

Definition stage2_promoted (stage2_results : list stage_result)
  : list stage_result :=
  firstn 3 (filter (fun s => fgt (md s) (Fin 0)) (sort_desc stage2_results)).

(** How a run that was not aborted ended. *)
Inductive outcome : Type :=
| StoppedAfterStage1 (r : recommendation)
| StoppedAfterStage2 (ranking : list stage_result) (r : recommendation)
| Finished (ranking : list stage_result) (r : recommendation).

(** Stage 3 and the final summary, from the Stage 2 promotions. *)
Definition run_stage3 (a_base : adapter) (stage3_sims : nat)
    (promoted2 : list stage_result) : result outcome * list event :=
  let base_edges3 := run_match stage3_sims a_base in
  let '(r, ev) := stage_loop 3 stage3_sims base_edges3 promoted2 in
  match r with
  | Raise e => (Raise e, EvRunMatch 3 (get_name a_base) :: ev)
  | Ok stage3_results =>
      let ranking := sort_desc stage3_results in
      let rec := _print_final_summary ranking in
      (Ok (Finished ranking rec),
       EvRunMatch 3 (get_name a_base) :: ev ++ [EvSummary rec])
  end.

(** [run_search] from the point where the Stage 2 results are complete. *)
Definition after_stage2 (a_base : adapter) (stage3_sims : nat)
    (stage2_results : list stage_result) : result outcome * list event :=
  let ranking := sort_desc stage2_results in
  if negb (any_positive stage2_results) then
    let rec := _print_final_summary ranking in
    (Ok (StoppedAfterStage2 ranking rec), [EvNoPositive; EvSummary rec])
  else run_stage3 a_base stage3_sims (stage2_promoted stage2_results).

(** [run_search] from the Stage 1 promotions on. *)
Definition run_stage2 (a_base : adapter) (stage2_sims stage3_sims : nat)
    (promoted : list stage_result) : result outcome * list event :=
  let base_edges2 := run_match stage2_sims a_base in
  let '(r, ev) := stage_loop 2 stage2_sims base_edges2 promoted in
  match r with
  | Raise e => (Raise e, EvRunMatch 2 (get_name a_base) :: ev)
  | Ok stage2_results =>
      let '(o, ev') := after_stage2 a_base stage3_sims stage2_results in
      (o, EvRunMatch 2 (get_name a_base) :: ev ++ ev')
  end.

Definition base_source : string :=
  generate_strategy "STATIC_SYM_TEMPLATE" [("bps", "80")].

Definition run_search (candidates : list cand_def)
    (stage1_sims stage2_sims stage3_sims : nat)
  : result outcome * list event :=
  match compile_source base_source with
  | Raise e => (Raise e, [])
  | Ok a_base =>
      let base_edges := run_match stage1_sims a_base in
      let '(stage1_results, ev1) :=
        stage1_loop stage1_sims base_edges candidates in
      let promoted := stage1_promoted stage1_results in
      match promoted with
      | [] =>
          (Ok (StoppedAfterStage1 (_print_final_summary [])),
           EvRunMatch 0 (get_name a_base) :: ev1
             ++ [EvNoSurvivors; EvSummary (_print_final_summary [])])
      | _ :: _ =>
          let '(o, ev) := run_stage2 a_base stage2_sims stage3_sims promoted in
          (o, EvRunMatch 0 (get_name a_base) :: ev1 ++ ev)
      end
  end.

End Search.

(** *** Notions used to state the selection rules *)

(** [a] is ranked at least as high as [b]: both keys are numbers and the
    first is not smaller. *)
Definition ge_md (a b : stage_result) : Prop :=
  fge (md a) (md b) = true.

Definition survives (s : stage_result) : Prop :=
  Is_true (fge (md s) (Fin (-5))).

Definition positive (s : stage_result) : Prop :=
  Is_true (fgt (md s) (Fin 0)).

(** *** A toy instance of the collaborators

    For running the protocol on concrete inputs: an artifact is its source,
    the template is the source, and every simulation yields one edge, 0. *)
Definition toy_generate (t : string) (_ : list (string * string)) : string :=
  t.
Definition toy_name (a : string) : string := a.
Definition toy_run (_ : nat) (_ : string) : list R := [0].

(** A simulation in which the source "good" earns one more than every
    other source. *)
Definition toy_run_edge (_ : nat) (a : string) : list R :=
  if String.eqb a "good" then [1] else [0].

(** A compiler that rejects one source. *)
Definition toy_compile (src : string) : result string :=
  if String.eqb src "bad" then Raise CompileError else Ok src.

Definition good_cand : cand_def := mkCand "S1" "StaticSym" "good" [].
Definition bad_cand : cand_def := mkCand "S2" "StaticSym" "bad" [].

Definition row (cname : string) (delta t : R) : stage_result :=
  mkStageResult
    (mkStats 3 (Fin delta) (Fin 0) (Fin delta) (Fin 1) (Fin t) (Fin 0)
             (Fin 1))
    cname "Static_80" good_cand.

End PairedEval.

(** ** Reading event logs *)

Module Reading.
Import PairedEval.

(** The simulations of one stage in an event log. *)
Definition is_run (stage : nat) (e : event) : bool :=
  match e with
  | EvRunMatch k _ => (k =? stage)%nat
  | _ => false
  end.

Definition count_runs (stage : nat) (log : list event) : nat :=
  length (filter (fun e => is_run stage e) log).

(** The printed COMPILE FAILED lines of an event log, in order. *)
Fixpoint failed_names (log : list event) : list string :=
  match log with
  | [] => []
  | EvCompileFailed c :: log' => c :: failed_names log'
  | _ :: log' => failed_names log'
  end.

End Reading.

(** ** scoring.py

    [Decimal] values are idealised as exact rationals. *)

Module Scoring.

Record AMMState : Type := mkAMMState {
  name : string;
  reserve_x : Q;
  reserve_y : Q;
  spot_price : Q
}.

Definition calculate_pnl (initial_state final_state : AMMState)
    (initial_fair_price final_fair_price : Q) : Q :=
  let initial_value :=
    (reserve_x initial_state * initial_fair_price
     + reserve_y initial_state)%Q in
  let final_value :=
    (reserve_x final_state * final_fair_price + reserve_y final_state)%Q in
  (final_value - initial_value)%Q.

Definition calculate_return (pnl initial_value : Q) : Q :=
  if Qeq_bool initial_value 0 then 0%Q else (pnl / initial_value)%Q.

End Scoring.

(** ** scripts/sweep_static_fees.py *)

Module Sweep.

Definition FEE_VALUES : list Z := [10; 20; 30; 40; 50; 60; 80; 100]%Z.

(** A [dict[int, float]] in insertion order; [results[bps] = edge] replaces
    the value of a key that is present and appends a new key. *)
Fixpoint dict_set (d : list (Z * R)) (k : Z) (v : R) : list (Z * R) :=
  match d with
  | [] => [(k, v)]
  | (k', v') :: d' =>
      if (k' =? k)%Z then (k, v) :: d' else (k', v') :: dict_set d' k v
  end.

(** The loop of [main]: [run_strategy] is the run of one fee.  It returns
    the parsed edge, or [None] when the subprocess timed out or no edge was
    found in its output; it raises [ValueError] when [float] rejects the
    text the pattern matched (["412.50."], say) and [OSError] when the
    subprocess cannot be started: only [TimeoutExpired] is caught.  [main]
    catches nothing, so an exception ends the loop. *)
Fixpoint sweep_loop (run_strategy : Z -> result (option R)) (fees : list Z)
    (results : list (Z * R)) : result (list (Z * R)) :=
  match fees with
  | [] => Ok results
  | bps :: fees' =>
      match run_strategy bps with
      | Raise e => Raise e
      | Ok (Some edge) =>
          sweep_loop run_strategy fees' (dict_set results bps edge)
      | Ok None => sweep_loop run_strategy fees' results
      end
  end.

(** [max(results, key=results.get)]: the first key whose value no later
    value exceeds. *)
Fixpoint max_from (best : Z * R) (d : list (Z * R)) : Z * R :=
  match d with
  | [] => best
  | kv :: d' => max_from (if Rltb (snd best) (snd kv) then kv else best) d'
  end.

Definition best_of (results : list (Z * R)) : option (Z * R) :=
  match results with
  | [] => None
  | kv :: d => Some (max_from kv d)
  end.

(** The summary of [main]: the best fee and its edge, or nothing when no
    run gave an edge; an exception of a run leaves [main] before the
    summary. *)
Definition main (run_strategy : Z -> result (option R))
  : result (option (Z * R)) :=
  match sweep_loop run_strategy FEE_VALUES [] with
  | Ok results => Ok (best_of results)
  | Raise e => Raise e
  end.

End Sweep.

(** ** evm/compiler.py *)

Module Compiler.

(** One entry of [output["errors"]]; a missing key is [None]. *)
Record diagnostic : Type := mkDiagnostic {
  severity : option string;
  formattedMessage : option string;
  message : option string
}.

(** One contract of [output["contracts"]["Strategy.sol"]]: its ABI and the
    two hex strings under [evm]; a key missing on the way is [None]. *)
Record contract_output : Type := mkContractOutput {
  co_abi : option (list string);
  bytecode_object : option string;
  deployedBytecode_object : option string
}.

Record solc_output : Type := mkSolcOutput {
  output_errors : option (list diagnostic);
  strategy_contracts : gmap string contract_output
}.

(** What happened inside the [try] of [compile] before the output is
    read. *)
Inductive solc_run : Type :=
| Compiled (output : solc_output)
| RaisedSolcError (text : string)
| RaisedOther (text : string).

(** The entries of [CompilationResult.errors]. *)
Inductive error_text : Type :=
| FromSolc (text : string)
| ContractNotFound (contract_name : string) (available : gset string)
| NoBytecode
| SolidityCompilationError (text : string)
| CompilationError (text : string).

Record CompilationResult : Type := mkCompilationResult {
  success : bool;
  bytecode : option (list Z);
  deployed_bytecode : option (list Z);
  abi : option (list string);
  errors : option (list error_text);
  warnings : option (list string)
}.

(** [bytes.fromhex]: pairs of hex digits, white space allowed between the
    pairs; [None] is the [ValueError]. *)
Definition hex_digit (c : Ascii.ascii) : option Z :=
  let n := Z.of_N (Ascii.N_of_ascii c) in
  if ((48 <=? n) && (n <=? 57))%Z then Some (n - 48)%Z
  else if ((97 <=? n) && (n <=? 102))%Z then Some (n - 87)%Z
  else if ((65 <=? n) && (n <=? 70))%Z then Some (n - 55)%Z
  else None.

Definition is_space (c : Ascii.ascii) : bool :=
  let n := Z.of_N (Ascii.N_of_ascii c) in
  ((n =? 32) || ((9 <=? n) && (n <=? 13)))%Z.

Fixpoint fromhex (s : string) : option (list Z) :=
  match s with
  | EmptyString => Some []
  | String c s' =>
      if is_space c then fromhex s'
      else
        match hex_digit c, s' with
        | Some h, String d s'' =>
            match hex_digit d, fromhex s'' with
            | Some l, Some rest => Some ((16 * h + l)%Z :: rest)
            | _, _ => None
            end
        | _, _ => None
        end
  end.

(** The loop over [output["errors"]]: error messages and warning messages,
    each in order; a missing severity counts as ["error"], any other
    severity is dropped. *)
Definition diagnostic_text (d : diagnostic) : string :=
  match formattedMessage d with
  | Some m => m
  | None => match message d with Some m => m | None => "Unknown error" end
  end.

Definition diagnostic_severity (d : diagnostic) : string :=
  match severity d with Some s => s | None => "error" end.

Definition is_error (d : diagnostic) : bool :=
  String.eqb (diagnostic_severity d) "error".

Fixpoint classify (ds : list diagnostic) : list string * list string :=
  match ds with
  | [] => ([], [])
  | d :: ds' =>
      let '(es, ws) := classify ds' in
      if String.eqb (diagnostic_severity d) "error"
      then (diagnostic_text d :: es, ws)
      else if String.eqb (diagnostic_severity d) "warning"
      then (es, diagnostic_text d :: ws)
      else (es, ws)
  end.

Definition failure (es : list error_text) (ws : option (list string))
  : CompilationResult :=
  mkCompilationResult false None None None (Some es) ws.

Definition text_or_empty (o : option string) : string :=
  match o with Some s => s | None => "" end.

Definition fromhex_error : string := "fromhex".

(** [compile], as a function of what solc did. *)
Definition compile (run : solc_run) (contract_name : string)
  : CompilationResult :=
  match run with
  | RaisedSolcError text => failure [SolidityCompilationError text] None
  | RaisedOther text => failure [CompilationError text] None
  | Compiled output =>
      let '(es, ws) :=
        match output_errors output with
        | Some ds => classify ds
        | None => ([], [])
        end in
      match es with
      | _ :: _ => failure (map FromSolc es) (Some ws)
      | [] =>
          match strategy_contracts output !! contract_name with
          | None =>
              failure
                [ContractNotFound contract_name
                   (dom (strategy_contracts output))]
                (Some ws)
          | Some contract =>
              let bytecode_hex := text_or_empty (bytecode_object contract) in
              let deployed_hex :=
                text_or_empty (deployedBytecode_object contract) in
              if String.eqb bytecode_hex "" then failure [NoBytecode] (Some ws)
              else
                match fromhex bytecode_hex with
                | None => failure [CompilationError fromhex_error] None
                | Some code =>
                    if String.eqb deployed_hex "" then
                      mkCompilationResult true (Some code) None
                        (Some (default [] (co_abi contract))) None (Some ws)
                    else
                      match fromhex deployed_hex with
                      | None => failure [CompilationError fromhex_error] None
                      | Some deployed =>
                          mkCompilationResult true (Some code) (Some deployed)
                            (Some (default [] (co_abi contract))) None
                            (Some ws)
                      end
                end
          end
      end
  end.

(** [compile_and_get_bytecode]: the pair, or the [RuntimeError] with the
    errors it joins into its message. *)
Definition compile_and_get_bytecode (run : solc_run)
  : list error_text + (option (list Z) * option (list string)) :=
  let result := compile run "Strategy" in
  if negb (success result) then inl (default [] (errors result))
  else inr (bytecode result, abi result).

End Compiler.

(** * Properties *)

(** ** Comparisons on reals *)

Lemma Rltb_true (x y : R) : Rltb x y = true <-> x < y.
Proof. unfold Rltb. destruct (Rlt_dec x y); split; intros; try done. Qed.

Lemma Rltb_false (x y : R) : Rltb x y = false <-> y <= x.
Proof.
  unfold Rltb. destruct (Rlt_dec x y); split; intros; try done; lra.
Qed.

Lemma Rleb_true (x y : R) : Rleb x y = true <-> x <= y.
Proof. unfold Rleb. destruct (Rle_dec x y); split; intros; try done. Qed.

Lemma Rleb_false (x y : R) : Rleb x y = false <-> y < x.
Proof.
  unfold Rleb. destruct (Rle_dec x y); split; intros; try done; lra.
Qed.

Lemma math_log_pos (x : R) : 0 < x -> math_log x = Ok (ln x).
Proof.
  intros H. unfold math_log.
  by rewrite (proj2 (Rltb_true 0 x) H).
Qed.

Lemma math_log_nonpos (x : R) : x <= 0 -> math_log x = Raise ValueError.
Proof.
  intros H. unfold math_log.
  by rewrite (proj2 (Rltb_false 0 x) H).
Qed.

Lemma ln_le_mono (x y : R) : 0 < x -> x <= y -> ln x <= ln y.
Proof.
  intros Hx [Hlt | ->]; [| lra].
  left. by apply ln_increasing.
Qed.

(** ** The rating system *)

Module EloFacts.
Import Elo.

Lemma margin_range (self : EloRating) (w l t : Z) :
  valid self w l t -> 0 <= margin w l t <= 1.
Proof.
  intros (_ & Hl & Hwl & Ht). unfold margin.
  assert (0 < IZR t) by (by apply (IZR_lt 0)).
  assert (0 <= IZR (w - l)) by (apply (IZR_le 0); lia).
  assert (IZR (w - l) <= IZR t) by (by apply IZR_le).
  split.
  - apply Rmult_le_pos; [done |]. left. by apply Rinv_0_lt_compat.
  - apply (Rmult_le_reg_r (IZR t)); [done |]. field_simplify; lra.
Qed.

Lemma margin_multiplier_formula (self : EloRating) (w l t : Z) :
  t <> 0%Z -> 0 < 1 + margin w l t * 2 ->
  margin_multiplier self w l t
  = Ok (1 + mov_factor self * ln (1 + margin w l t * 2)).
Proof.
  intros Ht Hpos. unfold margin_multiplier.
  destruct (Z.eqb_spec t 0); [done |].
  by rewrite math_log_pos.
Qed.

(** The multiplier in terms of [margin]: its value, its floor, and its
    growth with the margin. *)
Lemma margin_multiplier_facts (self : EloRating) (w l t : Z) :
  margin_multiplier self w l 0 = Ok 1
  /\ (valid self w l t ->
      let m := 1 + mov_factor self * ln (1 + 2 * margin w l t) in
      margin_multiplier self w l t = Ok m
      /\ 1 <= m
      /\ (w = l -> m = 1)
      /\ forall (w' l' t' : Z),
           valid self w' l' t' ->
           exists m',
             margin_multiplier self w' l' t' = Ok m'
             /\ (margin w l t <= margin w' l' t' -> m <= m')
             /\ (0 < mov_factor self -> margin w l t < margin w' l' t' ->
                 m < m')).
Proof.
  split; [done |].
  intros Hv. pose proof (margin_range _ _ _ _ Hv) as Hm.
  pose proof Hv as (Hmov & Hl & Hwl & Ht).
  assert (Hln : 0 <= ln (1 + 2 * margin w l t)).
  { rewrite <- ln_1. apply ln_le_mono; lra. }
  repeat split.
  - rewrite margin_multiplier_formula; [| lia | lra].
    by rewrite (Rmult_comm (margin w l t)).
  - by pose proof (Rmult_le_pos _ _ Hmov Hln); lra.
  - intros ->. unfold margin. rewrite Z.sub_diag.
    replace (1 + 2 * (0 / IZR t)) with 1 by (unfold Rdiv; lra).
    rewrite ln_1. lra.
  - intros w' l' t' Hv'. pose proof (margin_range _ _ _ _ Hv') as Hm'.
    destruct Hv' as (_ & _ & _ & Ht').
    exists (1 + mov_factor self * ln (1 + 2 * margin w' l' t')).
    repeat split.
    + rewrite margin_multiplier_formula; [| lia | lra].
      by rewrite (Rmult_comm (margin w' l' t')).
    + intros Hle.
      assert (ln (1 + 2 * margin w l t) <= ln (1 + 2 * margin w' l' t'))
        by (apply ln_le_mono; lra).
      by pose proof (Rmult_le_compat_l _ _ _ Hmov H); lra.
    + intros Hpos Hlt.
      assert (ln (1 + 2 * margin w l t) < ln (1 + 2 * margin w' l' t'))
        by (apply ln_increasing; lra).
      by pose proof (Rmult_lt_compat_l _ _ _ Hpos H); lra.
Qed.

(** C7: [margin_multiplier] is 1.0 for no games and otherwise
    [1 + mov_factor * ln (1 + 2 * margin)] with
    [margin = (winner_score - loser_score) / total_games]; on valid inputs
    it returns, is at least 1.0, is exactly 1.0 at zero margin, and grows
    with the margin (strictly when [mov_factor] is positive). *)
Theorem margin_multiplier_spec (self : EloRating) (w l t : Z) :
  margin_multiplier self w l 0 = Ok 1
  /\ (valid self w l t ->
      let m := 1 + mov_factor self * ln (1 + 2 * (IZR (w - l) / IZR t)) in
      margin_multiplier self w l t = Ok m
      /\ 1 <= m
      /\ (w = l -> m = 1)
      /\ forall (w' l' t' : Z),
           valid self w' l' t' ->
           exists m',
             margin_multiplier self w' l' t' = Ok m'
             /\ m' = 1 + mov_factor self
                         * ln (1 + 2 * (IZR (w' - l') / IZR t'))
             /\ (IZR (w - l) / IZR t <= IZR (w' - l') / IZR t' -> m <= m')
             /\ (0 < mov_factor self ->
                 IZR (w - l) / IZR t < IZR (w' - l') / IZR t' -> m < m')).
Proof.
  destruct (margin_multiplier_facts self w l t) as [H0 H].
  split; [exact H0 |]. intros Hv.
  destruct (H Hv) as (H1 & H2 & H3 & H4). unfold margin in *.
  cbv zeta. repeat split; [exact H1 | exact H2 | exact H3 |].
  intros w' l' t' Hv'.
  destruct (margin_multiplier_facts self w' l' t') as [_ H'].
  destruct (H' Hv') as (H1' & _).
  destruct (H4 w' l' t' Hv') as (m' & Hm' & Hle & Hlt).
  exists m'. unfold margin in *. cbv zeta in *.
  repeat split; [exact Hm' | congruence | exact Hle | exact Hlt].
Qed.

(** *** Reading and writing the rating dict *)

Lemma ratings_update (f : PlayerRating -> PlayerRating) (nm : string)
    (self : EloRating) :
  ratings (update f nm self) = alter f nm (ratings self).
Proof. done. Qed.

Lemma get_rating_lookup (self : EloRating) (nm : string) :
  ratings (snd (get_rating self nm)) !! nm = Some (fst (get_rating self nm)).
Proof.
  unfold get_rating. destruct (ratings self !! nm) eqn:E; simpl; [done |].
  by rewrite lookup_insert_eq.
Qed.

Lemma get_rating_lookup_ne (self : EloRating) (nm k : string) :
  k <> nm ->
  ratings (snd (get_rating self nm)) !! k = ratings self !! k.
Proof.
  intros Hne. unfold get_rating.
  destruct (ratings self !! nm) eqn:E; simpl; [done |].
  by rewrite lookup_insert_ne.
Qed.

Lemma get_rating_present (self : EloRating) (nm : string) (p : PlayerRating) :
  ratings self !! nm = Some p -> get_rating self nm = (p, self).
Proof. intros E. unfold get_rating. by rewrite E. Qed.

Lemma get_rating_keeps (self : EloRating) (nm k : string) (p : PlayerRating) :
  ratings self !! k = Some p ->
  ratings (snd (get_rating self nm)) !! k = Some p.
Proof.
  intros E. destruct (decide (k = nm)) as [-> | Hne].
  - by rewrite (get_rating_present _ _ _ E).
  - by rewrite get_rating_lookup_ne.
Qed.

Lemma get_rating_config (self : EloRating) (nm : string) :
  initial_rating (snd (get_rating self nm)) = initial_rating self.
Proof. unfold get_rating. by destruct (ratings self !! nm). Qed.

Lemma dom_get_rating (self : EloRating) (nm : string) :
  dom (ratings (snd (get_rating self nm))) = {[nm]} ∪ dom (ratings self).
Proof.
  unfold get_rating. destruct (ratings self !! nm) eqn:E; simpl.
  - apply elem_of_dom_2 in E. set_solver.
  - by rewrite dom_insert_L.
Qed.

(** The record a name stands for: the stored one, or the one [get_rating]
    would create. *)
Lemma deref_get_rating (self : EloRating) (a b : string) :
  deref (snd (get_rating self a)) b = deref self b.
Proof.
  unfold deref. destruct (decide (b = a)) as [-> | Hne].
  - rewrite (get_rating_present _ _ _ (get_rating_lookup self a)). done.
  - unfold get_rating at 1 3. rewrite get_rating_lookup_ne; [| done].
    destruct (ratings self !! b); [done |].
    simpl. unfold new_player. by rewrite get_rating_config.
Qed.

(** What the zero-total path of [update_ratings] returns. *)
Lemma update_ratings_zero_total (self : EloRating) (a b : string)
    (sa sb : Z) :
  (sa + sb = 0)%Z ->
  fst (update_ratings self a b sa sb)
  = Ok (rating (deref self a), rating (deref self b)).
Proof.
  intros Hz. unfold update_ratings. rewrite Hz. simpl.
  by rewrite !deref_get_rating.
Qed.

(** C8: with [score_a + score_b == 0] the call returns the two current
    ratings and changes no rating and no counter: every stored record is
    the same afterwards, and the record each of the two names stands for
    (rating, wins, losses, draws, matches_played) is the same before and
    after. *)
Theorem update_ratings_noop (self : EloRating) (player_a player_b : string)
    (score_a score_b : Z) :
  (score_a + score_b = 0)%Z ->
  let r := update_ratings self player_a player_b score_a score_b in
  fst r = Ok (rating (deref self player_a), rating (deref self player_b))
  /\ deref (snd r) player_a = deref self player_a
  /\ deref (snd r) player_b = deref self player_b
  /\ (forall (k : string) (p : PlayerRating),
        ratings self !! k = Some p -> ratings (snd r) !! k = Some p)
  /\ initial_rating (snd r) = initial_rating self
  /\ k_factor (snd r) = k_factor self
  /\ mov_factor (snd r) = mov_factor self.
Proof.
  intros Hz. unfold update_ratings. rewrite Hz. simpl.
  rewrite !deref_get_rating. repeat split.
  - intros k p E. by do 2 apply get_rating_keeps.
  - by rewrite !get_rating_config.
  - unfold get_rating.
    destruct (ratings self !! player_a); simpl;
      by destruct (_ !! player_b).
  - unfold get_rating.
    destruct (ratings self !! player_a); simpl;
      by destruct (_ !! player_b).
Qed.

(** C10: on the same zero-total path two names that were not stored are
    stored afterwards, each with the configured initial rating and zero
    counters, and the call returns the initial rating twice. *)
Theorem update_ratings_noop_inserts (self : EloRating)
    (player_a player_b : string) (score_a score_b : Z) :
  (score_a + score_b = 0)%Z ->
  ratings self !! player_a = None ->
  ratings self !! player_b = None ->
  let r := update_ratings self player_a player_b score_a score_b in
  fst r = Ok (initial_rating self, initial_rating self)
  /\ ratings (snd r) !! player_a
     = Some (mkPlayerRating player_a (initial_rating self) 0 0 0 0)
  /\ ratings (snd r) !! player_b
     = Some (mkPlayerRating player_b (initial_rating self) 0 0 0 0)
  /\ dom (ratings (snd r)) = {[player_a; player_b]} ∪ dom (ratings self).
Proof.
  intros Hz Ha Hb. unfold update_ratings. rewrite Hz. simpl.
  rewrite !deref_get_rating.
  assert (Da : deref self player_a = new_player self player_a)
    by (unfold deref, get_rating; by rewrite Ha).
  assert (Db : deref self player_b = new_player self player_b)
    by (unfold deref, get_rating; by rewrite Hb).
  rewrite Da, Db. repeat split.
  - apply get_rating_keeps. rewrite get_rating_lookup.
    change (fst (get_rating self player_a)) with (deref self player_a).
    by rewrite Da.
  - rewrite get_rating_lookup.
    change (fst (get_rating ?s player_b)) with (deref s player_b).
    by rewrite deref_get_rating, Db.
  - rewrite !dom_get_rating. set_solver.
Qed.

(** *** The counter invariant *)

Lemma invariant_slack (self : EloRating) :
  invariant self <-> slack_is (fun _ => 0%Z) self.
Proof.
  unfold invariant, slack_is, counters_ok, slack.
  split; intros H k p E; specialize (H k p E); lia.
Qed.

Lemma slack_is_ext (d d' : string -> Z) (self : EloRating) :
  (forall k, d k = d' k) -> slack_is d self -> slack_is d' self.
Proof. intros Hext H k p E. rewrite <- Hext. by apply H. Qed.

Lemma slack_update (f : PlayerRating -> PlayerRating) (z : Z) (nm : string)
    (d : string -> Z) (self : EloRating) :
  (forall p, slack (f p) = (slack p + z)%Z) ->
  slack_is d self -> slack_is (bump nm z d) (update f nm self).
Proof.
  intros Hf H k p. rewrite ratings_update. unfold bump.
  destruct (decide (k = nm)) as [-> | Hne].
  - rewrite lookup_alter_eq.
    destruct (ratings self !! nm) as [q |] eqn:E; simpl; [| done].
    intros [= <-]. rewrite Hf. by rewrite (H nm q E).
  - rewrite lookup_alter_ne; [| done]. apply H.
Qed.

Lemma slack_get_rating (self : EloRating) (nm : string) :
  slack_is (fun _ => 0%Z) self ->
  slack_is (fun _ => 0%Z) (snd (get_rating self nm)).
Proof.
  intros H k p. destruct (decide (k = nm)) as [-> | Hne].
  - rewrite get_rating_lookup. unfold get_rating.
    destruct (ratings self !! nm) as [q |] eqn:E; simpl.
    + intros [= <-]. by apply (H nm).
    + by intros [= <-].
  - rewrite get_rating_lookup_ne; [| done]. apply H.
Qed.

Lemma slack_apply_update (self : EloRating) (a b : string) (x y m : R)
    (d : string -> Z) :
  slack_is d self ->
  slack_is (bump b (-1) (bump a (-1) d)) (snd (apply_update self a b x y m)).
Proof.
  intros H. unfold apply_update. simpl.
  apply (slack_update add_matches); [intros; unfold slack; simpl; lia |].
  apply (slack_update add_matches); [intros; unfold slack; simpl; lia |].
  eapply slack_is_ext;
    [| apply (slack_update (add_rating _) 0 b);
       [| apply (slack_update (add_rating _) 0 a);
          [| exact H]]].
  - intros k. unfold bump. repeat case_decide; lia.
  - intros; unfold slack; simpl; lia.
  - intros; unfold slack; simpl; lia.
Qed.

Lemma counters_then_matches (a b : string) (k : string) :
  bump b (-1) (bump a (-1) (bump b 1 (bump a 1 (fun _ => 0%Z)))) k = 0%Z.
Proof. unfold bump. repeat case_decide; lia. Qed.

Lemma get_rating_preserves (self : EloRating) (nm : string) :
  invariant self -> invariant (snd (get_rating self nm)).
Proof. rewrite !invariant_slack. apply slack_get_rating. Qed.

(** A call that returns leaves the invariant in place. *)
Lemma update_ratings_preserves (self : EloRating) (a b : string) (sa sb : Z) :
  invariant self ->
  is_ok (fst (update_ratings self a b sa sb)) = true ->
  invariant (snd (update_ratings self a b sa sb)).
Proof.
  rewrite !invariant_slack. intros H.
  pose proof (slack_get_rating _ b (slack_get_rating _ a H)) as H2.
  unfold update_ratings.
  set (s2 := snd (get_rating (snd (get_rating self a)) b)) in *.
  destruct (_ =? 0)%Z; [done |].
  destruct (sb <? sa)%Z; [| destruct (sa <? sb)%Z].
  - set (s3 := update add_losses b (update add_wins a s2)).
    assert (H3 : slack_is (bump b 1 (bump a 1 (fun _ => 0%Z))) s3).
    { apply slack_update; [intros; unfold slack; simpl; lia |].
      apply slack_update; [intros; unfold slack; simpl; lia | done]. }
    destruct (margin_multiplier s3 sa sb (sa + sb)) as [m |]; [| done].
    intros _.
    pose proof (slack_apply_update s3 a b 1 0 m _ H3) as H4.
    destruct (apply_update s3 a b 1 0 m) as [r s4]. simpl in *.
    eapply slack_is_ext; [| exact H4]. apply counters_then_matches.
  - set (s3 := update add_wins b (update add_losses a s2)).
    assert (H3 : slack_is (bump b 1 (bump a 1 (fun _ => 0%Z))) s3).
    { apply slack_update; [intros; unfold slack; simpl; lia |].
      apply slack_update; [intros; unfold slack; simpl; lia | done]. }
    destruct (margin_multiplier s3 sb sa (sa + sb)) as [m |]; [| done].
    intros _.
    pose proof (slack_apply_update s3 a b 0 1 m _ H3) as H4.
    destruct (apply_update s3 a b 0 1 m) as [r s4]. simpl in *.
    eapply slack_is_ext; [| exact H4]. apply counters_then_matches.
  - set (s3 := update add_draws b (update add_draws a s2)).
    assert (H3 : slack_is (bump b 1 (bump a 1 (fun _ => 0%Z))) s3).
    { apply slack_update; [intros; unfold slack; simpl; lia |].
      apply slack_update; [intros; unfold slack; simpl; lia | done]. }
    intros _.
    pose proof (slack_apply_update s3 a b 0.5 0.5 1 _ H3) as H4.
    destruct (apply_update s3 a b 0.5 0.5 1) as [r s4]. simpl in *.
    eapply slack_is_ext; [| exact H4]. apply counters_then_matches.
Qed.

(** With scores that count games the call always returns. *)
Lemma update_ratings_returns (self : EloRating) (a b : string) (sa sb : Z) :
  (0 <= sa)%Z -> (0 <= sb)%Z ->
  is_ok (fst (update_ratings self a b sa sb)) = true.
Proof.
  intros Ha Hb. unfold update_ratings.
  destruct (Z.eqb_spec (sa + sb) 0); [done |].
  assert (Hpos : forall w l : Z,
             (0 <= l)%Z -> (l < w)%Z -> 0 < 1 + margin w l (w + l) * 2).
  { intros w l Hl Hw. unfold margin.
    assert (0 < IZR (w + l)) by (apply (IZR_lt 0); lia).
    assert (0 < IZR (w - l)) by (apply (IZR_lt 0); lia).
    assert (0 < IZR (w - l) / IZR (w + l))
      by (apply Rdiv_lt_0_compat; lra).
    lra. }
  destruct (Z.ltb_spec sb sa); [| destruct (Z.ltb_spec sa sb)].
  - rewrite margin_multiplier_formula; [| lia | by apply Hpos].
    by destruct (apply_update _ _ _ _ _ _).
  - rewrite (Z.add_comm sa sb).
    rewrite margin_multiplier_formula; [| lia | by apply Hpos].
    by destruct (apply_update _ _ _ _ _ _).
  - by destruct (apply_update _ _ _ _ _ _).
Qed.

(** The invariant in every state reached by calls that return. *)
Lemma reachable_invariant (self : EloRating) :
  reachable self -> invariant self.
Proof.
  induction 1.
  - intros nm p E. simpl in E. by rewrite lookup_empty in E.
  - by apply get_rating_preserves.
  - by apply update_ratings_preserves.
Qed.

(** C9, as the code has it: the invariant holds in a fresh rating system,
    is kept by [get_rating], is kept by every call of [update_ratings] that
    returns, which every call with non-negative scores does, and so holds in
    every state reached by calls that return. *)
Theorem counters_invariant (self : EloRating) :
  reachable self ->
  invariant self
  /\ (forall (a b : string) (sa sb : Z),
        is_ok (fst (update_ratings self a b sa sb)) = true ->
        invariant (snd (update_ratings self a b sa sb)))
  /\ (forall (a b : string) (sa sb : Z),
        (0 <= sa)%Z -> (0 <= sb)%Z ->
        is_ok (fst (update_ratings self a b sa sb)) = true).
Proof.
  intros Hr. pose proof (reachable_invariant self Hr) as Hinv.
  repeat split; [done | |].
  - intros a b sa sb. by apply update_ratings_preserves.
  - intros a b sa sb. apply update_ratings_returns.
Qed.

(** C9, as stated, fails: [update_ratings("a", "b", 1, -3)] on a fresh
    rating system counts a win for "a" and a loss for "b", then
    [margin_multiplier(1, -3, -2)] calls [math.log(-3.0)], which raises
    before [matches_played] is touched. *)
Lemma counters_invariant_broken :
  let self := init 1500 32 0.5 in
  let r := update_ratings self "a" "b" 1 (-3) in
  invariant self
  /\ fst r = Raise ValueError
  /\ ratings (snd r) !! "a" = Some (mkPlayerRating "a" 1500 0 1 0 0)
  /\ ~ invariant (snd r).
Proof.
  assert (Hlog : math_log (1 + margin 1 (-3) (1 + -3) * 2) = Raise ValueError).
  { apply math_log_nonpos. unfold margin.
    change (1 - -3)%Z with 4%Z. change (1 + -3)%Z with (-2)%Z. lra. }
  assert (Hr : update_ratings (init 1500 32 0.5) "a" "b" 1 (-3)
               = (Raise ValueError,
                  update add_losses "b"
                    (update add_wins "a"
                       (snd (get_rating
                               (snd (get_rating (init 1500 32 0.5) "a"))
                               "b"))))).
  { unfold update_ratings.
    change ((1 + -3 =? 0)%Z) with false. change ((-3 <? 1)%Z) with true.
    cbv iota. unfold margin_multiplier.
    change ((1 + -3 =? 0)%Z) with false. cbv iota. by rewrite Hlog. }
  assert (Ha : ratings (snd (update_ratings (init 1500 32 0.5) "a" "b" 1 (-3)))
               !! "a" = Some (mkPlayerRating "a" 1500 0 1 0 0)).
  { rewrite Hr. simpl. rewrite lookup_alter_ne; [| done].
    rewrite lookup_alter_eq.
    rewrite get_rating_lookup_ne; [| done]. rewrite get_rating_lookup.
    unfold get_rating. simpl. by rewrite lookup_empty. }
  simpl. repeat split.
  - intros nm p E. simpl in E. by rewrite lookup_empty in E.
  - by rewrite Hr.
  - exact Ha.
  - intros Hinv. specialize (Hinv _ _ Ha). unfold counters_ok in Hinv.
    simpl in Hinv. lia.
Qed.

(** *** The theorems at concrete inputs *)

Lemma margin_multiplier_spec_witness :
  valid (init 1500 32 0.5) 3 1 4
  /\ margin_multiplier (init 1500 32 0.5) 3 1 4
     = Ok (1 + 0.5 * ln (1 + 2 * (IZR (3 - 1) / IZR 4)))
  /\ 1 <= 1 + 0.5 * ln (1 + 2 * (IZR (3 - 1) / IZR 4)).
Proof.
  assert (Hv : valid (init 1500 32 0.5) 3 1 4).
  { unfold valid. simpl. repeat split; try lia. lra. }
  split; [exact Hv |].
  destruct (margin_multiplier_spec (init 1500 32 0.5) 3 1 4) as [_ H].
  destruct (H Hv) as (H1 & H2 & _).
  split; [exact H1 | exact H2].
Defined.

Lemma update_ratings_noop_witness :
  (0 + 0 = 0)%Z
  /\ fst (update_ratings (init 1500 32 0.5) "a" "b" 0 0)
     = Ok (rating (deref (init 1500 32 0.5) "a"),
           rating (deref (init 1500 32 0.5) "b")).
Proof.
  split; [reflexivity |].
  apply (update_ratings_noop (init 1500 32 0.5) "a" "b" 0 0). reflexivity.
Defined.

Lemma update_ratings_noop_inserts_witness :
  (0 + 0 = 0)%Z
  /\ ratings (init 1500 32 0.5) !! "a" = None
  /\ ratings (init 1500 32 0.5) !! "b" = None
  /\ fst (update_ratings (init 1500 32 0.5) "a" "b" 0 0) = Ok (1500, 1500).
Proof.
  do 3 (split; [reflexivity |]).
  apply (update_ratings_noop_inserts (init 1500 32 0.5) "a" "b" 0 0);
    reflexivity.
Defined.

End EloFacts.

(** ** The paired comparison *)

Module PairedEvalFacts.
Import PairedEval.

Lemma math_erf_odd (x : R) : math_erf (- x) = - math_erf x.
Proof.
  unfold math_erf.
  destruct (Rle_dec 0 x) as [Hx | Hx], (Rle_dec 0 (- x)) as [Hn | Hn].
  - assert (x = 0) as -> by lra.
    rewrite (proj2 (Rleb_true 0 (- 0))), (proj2 (Rleb_true 0 0)) by lra.
    unfold erf_integral. rewrite Ropp_0, RiemannInt_P9. lra.
  - rewrite (proj2 (Rleb_true 0 x)), (proj2 (Rleb_false 0 (- x))) by lra.
    by rewrite Ropp_involutive.
  - rewrite (proj2 (Rleb_true 0 (- x))), (proj2 (Rleb_false 0 x)) by lra.
    lra.
  - lra.
Qed.

(** [_normal_cdf] is the distribution function [Phi]. *)
Lemma normal_cdf_Phi (x : R) : _normal_cdf (Fin x) = Fin (Phi x).
Proof.
  unfold _normal_cdf, Phi, math_erfc. f_equal.
  replace (- x / sqrt 2) with (- (x / sqrt 2)) by (unfold Rdiv; lra).
  rewrite math_erf_odd. lra.
Qed.

(** *** Sums over arrays and sums over indices *)

Lemma np_sum_app (a b : list R) : np_sum (a ++ b) = np_sum a + np_sum b.
Proof. induction a as [| x a IH]; simpl; [lra | rewrite IH; lra]. Qed.

Lemma np_sum_seq (f : nat -> R) (k : nat) :
  np_sum (map f (seq 0 k)) = big_sum f k.
Proof.
  induction k as [| k IH]; [done |].
  rewrite seq_S, map_app, np_sum_app, IH. simpl. lra.
Qed.

Lemma np_sub_length (a b : list R) :
  length a = length b -> length (np_sub a b) = length a.
Proof.
  revert b. induction a as [| x a IH]; intros [| y b] H; simpl in *;
    try done.
  f_equal. apply IH. lia.
Qed.

Lemma np_sub_nth (a b : list R) (i : nat) :
  length a = length b -> nth i (np_sub a b) 0 = spec_delta a b i.
Proof.
  unfold spec_delta. revert b i.
  induction a as [| x a IH]; intros [| y b] i H; simpl in *; try done.
  - destruct i; lra.
  - destruct i; [done |]. apply IH. lia.
Qed.

Lemma list_as_seq (l : list R) :
  l = map (fun i => nth i l 0) (seq 0 (length l)).
Proof.
  induction l as [| x l IH]; [done |].
  simpl. f_equal. rewrite <- seq_shift, map_map. exact IH.
Qed.

Lemma np_sub_seq (a b : list R) :
  length a = length b ->
  np_sub a b = map (spec_delta a b) (seq 0 (length a)).
Proof.
  intros H. rewrite (list_as_seq (np_sub a b)), np_sub_length by done.
  apply map_ext. intros i. by apply np_sub_nth.
Qed.

Lemma np_gt0_sum (f : nat -> R) (k : nat) :
  np_sum (np_gt0 (map f (seq 0 k)))
  = INR (count_upto (fun i => Rltb 0 (f i)) k).
Proof.
  unfold np_gt0. rewrite map_map, np_sum_seq.
  induction k as [| k IH]; [done |].
  cbn [big_sum count_upto]. rewrite IH, plus_INR.
  by destruct (Rltb 0 (f k)).
Qed.

Lemma np_mean_fin (a : list R) :
  (1 <= length a)%nat -> np_mean a = Fin (np_sum a / INR (length a)).
Proof. destruct a; simpl; [lia | done]. Qed.

Lemma fdiv_fin (x y : R) : y <> 0 -> fdiv (Fin x) (Fin y) = Fin (x / y).
Proof. intros H. unfold fdiv. by destruct (Req_dec_T y 0). Qed.

Lemma mean_delta_spec (cand base : list R) :
  length cand = length base -> (1 <= length cand)%nat ->
  np_mean (np_sub cand base) = Fin (spec_mean_delta cand base).
Proof.
  intros Hlen Hn. rewrite np_mean_fin by (by rewrite np_sub_length).
  rewrite np_sub_length by done. unfold spec_mean_delta.
  by rewrite np_sub_seq, np_sum_seq.
Qed.

Lemma std_delta_spec (cand base : list R) :
  length cand = length base -> (1 <= length cand)%nat ->
  (if (1 <? length cand)%nat then np_std (np_sub cand base) 1 else Fin 0)
  = Fin (spec_std_delta cand base).
Proof.
  intros Hlen Hn. unfold spec_std_delta, np_std.
  rewrite np_sub_length by done.
  destruct (Nat.ltb_spec 1 (length cand)) as [H1 | H1]; [| done].
  destruct (Nat.leb_spec (length cand) 1) as [H2 | H2]; [lia |].
  do 2 f_equal.
  rewrite minus_INR by lia. f_equal.
  rewrite np_sub_seq at 1 by done. rewrite map_map, np_sum_seq.
  unfold spec_mean_delta, Rsqr.
  by rewrite np_sub_seq, np_sum_seq.
Qed.

Lemma sqrt_n_nonzero (k : nat) : (1 <= k)%nat -> sqrt (INR k) <> 0.
Proof.
  intros H. assert (0 < INR k) by (apply lt_0_INR; lia).
  pose proof (sqrt_lt_R0 _ H0). lra.
Qed.

(** The fields of [paired_compare] against the index-based definitions. *)
Lemma paired_compare_eqs (cand base : list R) :
  length cand = length base -> (1 <= length cand)%nat ->
  let s := paired_compare cand base in
  n s = length cand
  /\ mean_delta s = Fin (spec_mean_delta cand base)
  /\ se s = Fin (spec_se cand base)
  /\ t_stat s = Fin (spec_t_stat cand base)
  /\ p_value s = Fin (spec_p_value cand base)
  /\ win_rate s = Fin (spec_win_rate cand base).
Proof.
  intros Hlen Hn. unfold paired_compare. cbn [n mean_delta se t_stat p_value
                                               win_rate].
  rewrite std_delta_spec, mean_delta_spec by done.
  destruct (Nat.ltb_spec 0 (length cand)) as [_ | ?]; [| lia].
  rewrite fdiv_fin by (by apply sqrt_n_nonzero).
  fold (spec_se cand base).
  assert (Hgt : fgt (Fin (spec_se cand base)) (Fin 0)
                = Rltb 0 (spec_se cand base)) by done.
  rewrite Hgt.
  assert (Ht : (if Rltb 0 (spec_se cand base)
                then fdiv (Fin (spec_mean_delta cand base))
                          (Fin (spec_se cand base))
                else Fin 0) = Fin (spec_t_stat cand base)).
  { unfold spec_t_stat.
    destruct (Rltb 0 (spec_se cand base)) eqn:E; [| done].
    apply Rltb_true in E. rewrite fdiv_fin; [done | lra]. }
  rewrite Ht. repeat split.
  - unfold spec_p_value.
    destruct (Rltb 0 (spec_se cand base)); [| done].
    simpl fabs. by rewrite normal_cdf_Phi.
  - rewrite np_mean_fin.
    + unfold np_gt0 at 2. rewrite length_map, np_sub_length by done.
      by rewrite np_sub_seq, np_gt0_sum.
    + unfold np_gt0. by rewrite length_map, np_sub_length.
Qed.

(** C1: for equal-length inputs with at least one sample every statistic
    returned by [paired_compare] is the one the specification names: the
    mean of the per-index deltas, the standard error from the sample
    standard deviation (divisor [n - 1], 0 for a single sample), the
    t statistic and the two-sided normal p-value with their [se > 0]
    guards, and the fraction of strictly positive deltas. *)
Theorem paired_compare_spec (cand base : list R) :
  length cand = length base -> (1 <= length cand)%nat ->
  let s := paired_compare cand base in
  n s = length cand
  /\ mean_delta s = Fin (spec_mean_delta cand base)
  /\ se s = Fin (spec_se cand base)
  /\ t_stat s = Fin (spec_t_stat cand base)
  /\ p_value s = Fin (spec_p_value cand base)
  /\ win_rate s = Fin (spec_win_rate cand base).
Proof. exact (paired_compare_eqs cand base). Qed.

(** The known case of C1: [cand = [10, 12, 8]], [base = [8, 8, 8]]. *)
Lemma paired_compare_spec_witness :
  length [10; 12; 8] = length [8; 8; 8]
  /\ (1 <= length [10; 12; 8])%nat
  /\ mean_delta (paired_compare [10; 12; 8] [8; 8; 8]) = Fin 2
  /\ win_rate (paired_compare [10; 12; 8] [8; 8; 8]) = Fin (2 / 3).
Proof.
  assert (Hlen : length [10; 12; 8] = length [8; 8; 8]) by reflexivity.
  assert (Hn : (1 <= length [10; 12; 8])%nat) by (simpl; lia).
  split; [exact Hlen |]. split; [exact Hn |].
  destruct (paired_compare_spec [10; 12; 8] [8; 8; 8] Hlen Hn)
    as (_ & Hm & _ & _ & _ & Hw).
  split.
  - rewrite Hm. f_equal. unfold spec_mean_delta, spec_delta. simpl. lra.
  - rewrite Hw. f_equal. unfold spec_win_rate, spec_delta. simpl.
    rewrite (proj2 (Rltb_true 0 (10 - 8))) by lra.
    rewrite (proj2 (Rltb_true 0 (12 - 8))) by lra.
    rewrite (proj2 (Rltb_false 0 (8 - 8))) by lra.
    simpl. lra.
Defined.

(** C2 at its input: with two empty arrays [n], [se], [t_stat] are 0 and
    [p_value] is 1.0, but the four means are [np.mean] of an empty array,
    which is [nan], not 0. *)
Lemma paired_compare_empty :
  paired_compare [] [] = mkStats 0 NaN NaN NaN (Fin 0) (Fin 0) (Fin 1) NaN.
Proof.
  assert (E : Rltb 0 0 = false) by (apply Rltb_false; lra).
  unfold paired_compare, fgt, flt. simpl. by rewrite E.
Qed.

(** ** The selection rules of the search *)

Lemma ge_md_trans (a b c : stage_result) : ge_md a b -> ge_md b c -> ge_md a c.
Proof.
  unfold ge_md, fge, fle.
  destruct (md a), (md b), (md c); try done.
  rewrite !Rleb_true. lra.
Qed.

Lemma flt_ge_md (x y : stage_result) : flt (md x) (md y) = true -> ge_md y x.
Proof.
  unfold ge_md, fge, fle, flt. destruct (md x), (md y); try done.
  rewrite Rltb_true, Rleb_true. lra.
Qed.

Lemma not_flt_ge_md (x y : stage_result) :
  is_fin (md x) -> is_fin (md y) -> flt (md x) (md y) = false -> ge_md x y.
Proof.
  unfold ge_md, fge, fle, flt. destruct (md x), (md y); try done.
  rewrite Rltb_false, Rleb_true. lra.
Qed.

Lemma insert_desc_perm (x : stage_result) (l : list stage_result) :
  insert_desc x l ≡ₚ x :: l.
Proof.
  induction l as [| y l IH]; simpl; [done |].
  destruct (flt (md x) (md y)); [| done].
  rewrite IH. apply Permutation_swap.
Qed.

Lemma sort_desc_perm (l : list stage_result) : sort_desc l ≡ₚ l.
Proof.
  induction l as [| x l IH]; simpl; [done |].
  by rewrite insert_desc_perm, IH.
Qed.

Lemma insert_desc_sorted (x : stage_result) (l : list stage_result) :
  is_fin (md x) -> Forall (fun s => is_fin (md s)) l ->
  StronglySorted ge_md l -> StronglySorted ge_md (insert_desc x l).
Proof.
  intros Hx Hfin Hs. induction Hs as [| y l Hs IH Hy]; simpl.
  - repeat constructor.
  - apply Forall_cons in Hfin as [Hfy Hfin].
    destruct (flt (md x) (md y)) eqn:E.
    + constructor; [by apply IH |].
      rewrite insert_desc_perm. constructor; [by apply flt_ge_md | done].
    + assert (ge_md x y) by (by apply not_flt_ge_md).
      constructor; [by constructor |].
      constructor; [done |].
      eapply Forall_impl; [exact Hy |].
      intros z Hz. by eapply ge_md_trans.
Qed.

Lemma sort_desc_sorted (l : list stage_result) :
  Forall (fun s => is_fin (md s)) l -> StronglySorted ge_md (sort_desc l).
Proof.
  induction l as [| x l IH]; intros Hfin; simpl; [constructor |].
  apply Forall_cons in Hfin as [Hx Hfin].
  apply insert_desc_sorted; [done | | by apply IH].
  by rewrite sort_desc_perm.
Qed.

Lemma StronglySorted_sublist_of (l k : list stage_result) :
  sublist k l -> StronglySorted ge_md l -> StronglySorted ge_md k.
Proof.
  intros Hsub Hs. revert k Hsub.
  induction Hs as [| y l Hs IH Hy]; intros k Hsub.
  - apply sublist_nil_r in Hsub as ->. constructor.
  - apply sublist_cons_r in Hsub as [Hsub | (k' & -> & Hsub)].
    + by apply IH.
    + constructor; [by apply IH |].
      eapply Forall_forall. intros z Hz.
      eapply Forall_forall in Hy; [exact Hy |].
      by eapply elem_of_sublist.
Qed.

(** C3: what Stage 1 promotes.  No result with [mean_delta < -5] (so none
    with [mean_delta = -6]) is promoted; every promoted result is one of the
    evaluated results with [mean_delta >= -5]; at most 8 are promoted, and
    exactly 8 when more than 8 survive the threshold; and, the keys being
    numbers, the promoted list is the front of the survivors put in
    descending order of [mean_delta]. *)
Theorem stage1_promotion (results : list stage_result) :
  let promoted := stage1_promoted results in
  (forall s : stage_result,
     flt (md s) (Fin (-5)) = true -> s ∉ promoted)
  /\ (forall s : stage_result, md s = Fin (-6) -> s ∉ promoted)
  /\ (forall s : stage_result,
        s ∈ promoted -> s ∈ results /\ survives s)
  /\ length promoted = Nat.min 8 (length (filter survives results))
  /\ ((8 < length (filter survives results))%nat ->
      length promoted = 8%nat)
  /\ (Forall (fun s => is_fin (md s)) results ->
      exists rest : list stage_result,
        promoted ++ rest ≡ₚ filter survives results
        /\ StronglySorted ge_md (promoted ++ rest)).
Proof.
  assert (Hin : forall s : stage_result,
             s ∈ stage1_promoted results -> s ∈ results /\ survives s).
  { intros s Hs. unfold stage1_promoted, stage1_filtered in Hs.
    eapply elem_of_sublist in Hs; [| apply sublist_take].
    apply list_elem_of_filter in Hs as [Hp Hs].
    by rewrite sort_desc_perm in Hs. }
  assert (Hlow : forall s : stage_result,
             flt (md s) (Fin (-5)) = true -> s ∉ stage1_promoted results).
  { intros s Hlt Hs. apply Hin in Hs as [_ Hs].
    unfold survives, fge, fle, flt in *. destruct (md s); [| done].
    apply Rltb_true in Hlt. apply Is_true_true, Rleb_true in Hs. lra. }
  assert (Hlen : length (stage1_promoted results)
                 = Nat.min 8 (length (filter survives results))).
  { unfold stage1_promoted, stage1_filtered. rewrite length_take.
    f_equal. apply Permutation_length.
    apply filter_Permutation, sort_desc_perm. }
  cbv zeta. repeat split; try done.
  - intros s Hs. apply Hlow. rewrite Hs. apply Rltb_true. lra.
  - by apply Hin.
  - by apply Hin.
  - intros H8. rewrite Hlen. lia.
  - intros Hfin. exists (drop 8 (stage1_filtered results)).
    unfold stage1_promoted. rewrite take_drop. split.
    + apply filter_Permutation, sort_desc_perm.
    + eapply StronglySorted_sublist_of; [apply sublist_filter |].
      by apply sort_desc_sorted.
Qed.

(** C5: the recommendation printed for a ranking.  An empty ranking
    recommends the baseline; otherwise the first result decides:
    [mean_delta > 3] and [|t_stat| > 1.5] recommend the candidate, else
    [mean_delta > 0] reports a marginal improvement, else the baseline is
    recommended. *)
Theorem final_recommendation (best : stage_result)
    (rest : list stage_result) (d t : R) :
  md best = Fin d -> t_stat (st best) = Fin t ->
  _print_final_summary [] = NoCandidatesToReport
  /\ recommends_baseline (_print_final_summary []) = true
  /\ (3 < d -> 1.5 < Rabs t ->
      _print_final_summary (best :: rest) = RecommendUse (candidate best))
  /\ (~ (3 < d /\ 1.5 < Rabs t) -> 0 < d ->
      _print_final_summary (best :: rest)
      = MarginalImprovement (candidate best))
  /\ (~ (3 < d /\ 1.5 < Rabs t) -> d <= 0 ->
      _print_final_summary (best :: rest) = NoCandidateBeats
      /\ recommends_baseline (_print_final_summary (best :: rest)) = true).
Proof.
  intros Hd Ht. unfold _print_final_summary. rewrite Hd, Ht.
  unfold fgt, flt, fabs.
  destruct (Rltb 3 d) eqn:E3, (Rltb 1.5 (Rabs t)) eqn:Et,
           (Rltb 0 d) eqn:E0; simpl;
    rewrite ?Rltb_true, ?Rltb_false in *;
    repeat split; try done; intros; try lra;
    exfalso; lra.
Qed.

Lemma any_positive_false (results : list stage_result) :
  any_positive results = false <->
  forall s : stage_result, s ∈ results -> fgt (md s) (Fin 0) = false.
Proof.
  unfold any_positive. split.
  - intros H s Hs. rewrite <- sort_desc_perm in Hs.
    apply list_elem_of_In in Hs.
    destruct (fgt (md s) (Fin 0)) eqn:E; [| done].
    assert (existsb (fun s => fgt (md s) (Fin 0)) (sort_desc results) = true)
      by (apply existsb_exists; eauto).
    congruence.
  - intros H.
    destruct (existsb _ _) eqn:E; [| done].
    apply existsb_exists in E as (s & Hs & Hpos).
    apply list_elem_of_In in Hs. rewrite sort_desc_perm in Hs.
    specialize (H s Hs). congruence.
Qed.

Lemma any_positive_true (results : list stage_result) :
  any_positive results = true ->
  exists s : stage_result, s ∈ results /\ positive s.
Proof.
  unfold any_positive. intros (s & Hs & Hpos)%existsb_exists.
  apply list_elem_of_In in Hs. rewrite sort_desc_perm in Hs.
  exists s. split; [done |]. by apply Is_true_true.
Qed.

Lemma le0_not_positive (s : stage_result) :
  fle (md s) (Fin 0) = true -> fgt (md s) (Fin 0) = false.
Proof.
  unfold fle, fgt, flt. destruct (md s); [| done].
  rewrite Rleb_true, Rltb_false. lra.
Qed.

Lemma not_positive_le0 (s : stage_result) :
  is_fin (md s) -> fgt (md s) (Fin 0) = false -> fle (md s) (Fin 0) = true.
Proof.
  unfold fle, fgt, flt. destruct (md s); [| done].
  rewrite Rleb_true, Rltb_false. lra.
Qed.

(** A ranking without a positive key recommends the baseline. *)
Lemma summary_without_positive (ranking : list stage_result) :
  (forall s : stage_result, s ∈ ranking -> fgt (md s) (Fin 0) = false) ->
  recommends_baseline (_print_final_summary ranking) = true.
Proof.
  intros H. destruct ranking as [| best rest]; [done |].
  assert (E0 : fgt (md best) (Fin 0) = false) by (apply H; left).
  assert (E3 : fgt (md best) (Fin 3) = false).
  { revert E0. unfold fgt, flt. destruct (md best); [| done].
    rewrite !Rltb_false. lra. }
  unfold _print_final_summary. by rewrite E3, E0.
Qed.

Section SearchFacts.

Variable adapter : Type.
Variable get_name : adapter -> string.
Variable generate_strategy : string -> list (string * string) -> string.
Variable compile_source : string -> result adapter.
Variable run_match : nat -> adapter -> list R.

Local Abbreviation evaluate := (evaluate adapter get_name run_match).
Local Abbreviation source_of := (source_of generate_strategy).
Local Abbreviation stage1_loop :=
  (stage1_loop adapter get_name generate_strategy compile_source run_match).
Local Abbreviation stage_loop :=
  (stage_loop adapter get_name generate_strategy compile_source run_match).
Local Abbreviation run_stage3 :=
  (run_stage3 adapter get_name generate_strategy compile_source run_match).
Local Abbreviation after_stage2 :=
  (after_stage2 adapter get_name generate_strategy compile_source run_match).
Local Abbreviation run_stage2 :=
  (run_stage2 adapter get_name generate_strategy compile_source run_match).
Local Abbreviation run_search :=
  (run_search adapter get_name generate_strategy compile_source run_match).

Lemma stage1_loop_events (n_sims : nat) (base_edges : list R)
    (cands : list cand_def) (who : string) (k : nat) :
  EvRunMatch k who ∈ snd (stage1_loop n_sims base_edges cands) -> k = 1%nat.
Proof.
  induction cands as [| c cands IH]; simpl.
  - intros H. by apply elem_of_nil in H.
  - destruct (compile_source (source_of c)),
             (stage1_loop n_sims base_edges cands); simpl in *;
      intros [H | H]%elem_of_cons; try done; try by apply IH.
    by injection H.
Qed.

Lemma stage_loop_events (stage n_sims : nat) (base_edges : list R)
    (promoted : list stage_result) (who : string) (k : nat) :
  EvRunMatch k who ∈ snd (stage_loop stage n_sims base_edges promoted) ->
  k = stage.
Proof.
  induction promoted as [| p promoted IH]; simpl.
  - intros H. by apply elem_of_nil in H.
  - destruct (compile_source (source_of (def p))); simpl.
    + destruct (stage_loop stage n_sims base_edges promoted); simpl in *.
      intros [H | H]%elem_of_cons; [by injection H | by apply IH].
    + intros H. by apply elem_of_nil in H.
Qed.

(** Whenever a whole run simulates anything in Stage 3, Stage 2 was
    completed and one of its results had a positive [mean_delta]. *)
Lemma stage3_needs_positive (candidates : list cand_def)
    (stage1_sims stage2_sims stage3_sims : nat) (who : string) :
  EvRunMatch 3 who
  ∈ snd (run_search candidates stage1_sims stage2_sims stage3_sims) ->
  exists (a_base : adapter) (stage2_results : list stage_result),
    compile_source (base_source generate_strategy) = Ok a_base
    /\ fst (stage_loop 2 stage2_sims (run_match stage2_sims a_base)
              (stage1_promoted
                 (fst (stage1_loop stage1_sims
                         (run_match stage1_sims a_base) candidates))))
       = Ok stage2_results
    /\ any_positive stage2_results = true.
Proof.
  unfold PairedEval.run_search.
  destruct (compile_source _) as [a_base |] eqn:Eb; simpl;
    [| intros H; by apply elem_of_nil in H].
  destruct (stage1_loop stage1_sims (run_match stage1_sims a_base) candidates)
    as [rs1 ev1] eqn:E1. simpl.
  pose proof (stage1_loop_events stage1_sims (run_match stage1_sims a_base)
                candidates who 3) as Hev1.
  rewrite E1 in Hev1. simpl in Hev1.
  destruct (stage1_promoted rs1) as [| p ps] eqn:Ep; simpl.
  - intros [H | H]%elem_of_cons; [done |].
    apply elem_of_app in H as [H | H]; [by apply Hev1 in H |].
    apply elem_of_cons in H as [H | H]; [done |].
    apply elem_of_cons in H as [H | H]; [done |].
    by apply elem_of_nil in H.
  - unfold PairedEval.run_stage2.
    pose proof (stage_loop_events 2 stage2_sims (run_match stage2_sims a_base)
                  (p :: ps) who 3) as Hev2.
    destruct (stage_loop 2 stage2_sims (run_match stage2_sims a_base)
                (p :: ps)) as [r2 ev2] eqn:E2.
    simpl in Hev2.
    destruct r2 as [rs2 |]; simpl.
    + unfold PairedEval.after_stage2.
      destruct (any_positive rs2) eqn:Epos; cbn [negb].
      * intros _. exists a_base, rs2. rewrite E1. cbn [fst].
        by rewrite Ep, E2.
      * simpl. intros [H | H]%elem_of_cons; [done |].
        apply elem_of_app in H as [H | H]; [by apply Hev1 in H |].
        apply elem_of_cons in H as [H | H]; [done |].
        apply elem_of_app in H as [H | H]; [by apply Hev2 in H |].
        apply elem_of_cons in H as [H | H]; [done |].
        apply elem_of_cons in H as [H | H]; [done |].
        by apply elem_of_nil in H.
    + intros [H | H]%elem_of_cons; [done |].
      apply elem_of_app in H as [H | H]; [by apply Hev1 in H |].
      apply elem_of_cons in H as [H | H]; [done |].
      by apply Hev2 in H.
Qed.

(** C4: the Stage 2 rule.  With every Stage 2 [mean_delta <= 0] the run
    ends there: the outcome is the Stage 2 ranking with a recommendation of
    the baseline, and nothing of Stage 3 happens.  Otherwise Stage 3 runs on
    [promoted2], whose members all have [mean_delta > 0] and which is the
    front (at most 3) of the positive results in descending order.  And
    in a whole run, a Stage 3 simulation happens only after a Stage 2 that
    was completed with some positive [mean_delta]. *)
Theorem stage2_rule (a_base : adapter) (stage3_sims : nat)
    (stage2_results : list stage_result) :
  Forall (fun s => is_fin (md s)) stage2_results ->
  let r := after_stage2 a_base stage3_sims stage2_results in
  let promoted2 := stage2_promoted stage2_results in
  ((forall s : stage_result,
      s ∈ stage2_results -> fle (md s) (Fin 0) = true) ->
   exists rec : recommendation,
     r = (Ok (StoppedAfterStage2 (sort_desc stage2_results) rec),
          [EvNoPositive; EvSummary rec])
     /\ recommends_baseline rec = true
     /\ forall who : string, EvRunMatch 3 who ∉ snd r)
  /\ (~ (forall s : stage_result,
           s ∈ stage2_results -> fle (md s) (Fin 0) = true) ->
      r = run_stage3 a_base stage3_sims promoted2
      /\ (forall s : stage_result,
            s ∈ promoted2 -> s ∈ stage2_results /\ positive s)
      /\ length promoted2
         = Nat.min 3 (length (filter positive stage2_results))
      /\ exists rest : list stage_result,
           promoted2 ++ rest ≡ₚ filter positive stage2_results
           /\ StronglySorted ge_md (promoted2 ++ rest))
  /\ (forall (candidates : list cand_def) (stage1_sims stage2_sims : nat)
             (who : string),
        EvRunMatch 3 who
        ∈ snd (run_search candidates stage1_sims stage2_sims stage3_sims) ->
        exists (a : adapter) (rs2 : list stage_result),
          fst (stage_loop 2 stage2_sims (run_match stage2_sims a)
                 (stage1_promoted
                    (fst (stage1_loop stage1_sims
                            (run_match stage1_sims a) candidates))))
          = Ok rs2
          /\ exists s : stage_result, s ∈ rs2 /\ positive s).
Proof.
  intros Hfin. cbv zeta.
  apply (proj1 (Corelib.Init.Logic.and_assoc _ _ _)).
  split; [| intros candidates s1 s2 who Hev;
    destruct (stage3_needs_positive _ _ _ _ _ Hev) as (a & rs2 & _ & H2 & H3);
    exists a, rs2; split; [done | by apply any_positive_true]].
  unfold PairedEval.after_stage2.
  destruct (any_positive stage2_results) eqn:E; cbn [negb].
  - split.
    + intros Hall. exfalso.
      assert (any_positive stage2_results = false); [| congruence].
      apply any_positive_false. intros s Hs.
      by apply le0_not_positive, Hall.
    + intros _. split; [done |].
      assert (Hperm : filter positive (sort_desc stage2_results)
                      ≡ₚ filter positive stage2_results)
        by apply filter_Permutation, sort_desc_perm.
      split; [| split].
      * intros s Hs. unfold stage2_promoted in Hs.
        eapply elem_of_sublist in Hs; [| apply sublist_take].
        fold (positive s) in Hs. rewrite Hperm in Hs.
        by apply list_elem_of_filter in Hs as [? ?].
      * unfold stage2_promoted. rewrite length_take.
        by rewrite <- (Permutation_length Hperm).
      * exists (drop 3 (filter positive (sort_desc stage2_results))).
        unfold stage2_promoted. rewrite take_drop. split; [done |].
        eapply StronglySorted_sublist_of; [apply sublist_filter |].
        by apply sort_desc_sorted.
  - pose proof (proj1 (any_positive_false _) E) as Hnone. split.
    + intros _. eexists. split; [reflexivity |]. split.
      * apply summary_without_positive. intros s Hs.
        rewrite sort_desc_perm in Hs. by apply Hnone.
      * intros who Hin. simpl in Hin.
        apply elem_of_cons in Hin as [Hin | Hin]; [done |].
        apply elem_of_cons in Hin as [Hin | Hin]; [done |].
        by apply elem_of_nil in Hin.
    + intros Hnot. exfalso. apply Hnot. intros s Hs.
      apply not_positive_le0; [| by apply Hnone].
      by eapply Forall_forall in Hfin.
Qed.

(** *** Compile failures *)






Lemma stage1_promoted_subset (results : list stage_result)
    (s : stage_result) :
  s ∈ stage1_promoted results -> s ∈ results.
Proof.
  intros Hs. unfold stage1_promoted, stage1_filtered in Hs.
  eapply elem_of_sublist in Hs; [| apply sublist_take].
  apply list_elem_of_filter in Hs as [_ Hs].
  by rewrite sort_desc_perm in Hs.
Qed.

Lemma stage2_promoted_subset (results : list stage_result)
    (s : stage_result) :
  s ∈ stage2_promoted results -> s ∈ results.
Proof.
  intros Hs. unfold stage2_promoted in Hs.
  eapply elem_of_sublist in Hs; [| apply sublist_take].
  apply list_elem_of_filter in Hs as [_ Hs].
  by rewrite sort_desc_perm in Hs.
Qed.





End SearchFacts.

(** *** The theorems at concrete inputs *)

Lemma stage1_promotion_witness :
  md (row "A1" (-6) 0) = Fin (-6)
  /\ row "A1" (-6) 0 ∉ stage1_promoted [row "B1" 1 0; row "A1" (-6) 0].
Proof.
  split; [reflexivity |].
  apply (stage1_promotion [row "B1" 1 0; row "A1" (-6) 0]). reflexivity.
Defined.

Lemma final_recommendation_witness :
  md (row "A1" 4 4) = Fin 4
  /\ t_stat (st (row "A1" 4 4)) = Fin 4
  /\ _print_final_summary [row "A1" 4 4] = RecommendUse "A1".
Proof.
  split; [reflexivity |]. split; [reflexivity |].
  apply (final_recommendation (row "A1" 4 4) [] 4 4);
    try reflexivity; [lra |].
  rewrite Rabs_pos_eq; lra.
Defined.

Lemma stage2_rule_witness :
  Forall (fun s => is_fin (md s)) [row "A1" (-1) 0]
  /\ exists rec : recommendation,
       after_stage2 string toy_name toy_generate toy_compile toy_run
                    "base" 10 [row "A1" (-1) 0]
       = (Ok (StoppedAfterStage2 (sort_desc [row "A1" (-1) 0]) rec),
          [EvNoPositive; EvSummary rec])
       /\ recommends_baseline rec = true.
Proof.
  assert (Hfin : Forall (fun s => is_fin (md s)) [row "A1" (-1) 0])
    by (repeat constructor).
  split; [exact Hfin |].
  destruct (stage2_rule string toy_name toy_generate toy_compile toy_run
              "base" 10 [row "A1" (-1) 0] Hfin) as [Hstop _].
  destruct Hstop as (rec & H1 & H2 & _).
  - intros s Hs. apply list_elem_of_singleton in Hs. subst s.
    apply Rleb_true. lra.
  - exists rec. split; [exact H1 | exact H2].
Defined.


End PairedEvalFacts.

(** * Further properties of the rating system *)

Module EloMore.
Import Elo EloFacts.

Lemma Rpower_pos (x y : R) : 0 < Rpower x y.
Proof. unfold Rpower. apply exp_pos. Qed.

(** Range and symmetry of [expected_score]. *)
Lemma expected_score_facts (rating_a rating_b : R) :
  0 < expected_score rating_a rating_b < 1
  /\ expected_score rating_a rating_b + expected_score rating_b rating_a = 1
  /\ expected_score rating_a rating_a = 1 / 2.
Proof.
  unfold expected_score.
  pose proof (Rpower_pos 10 ((rating_b - rating_a) / 400)) as Hp.
  assert (Hq : Rpower 10 ((rating_a - rating_b) / 400)
               = / Rpower 10 ((rating_b - rating_a) / 400)).
  { rewrite <- Rpower_Ropp. f_equal. lra. }
  set (p := Rpower 10 ((rating_b - rating_a) / 400)) in *.
  repeat split.
  - apply Rdiv_lt_0_compat; lra.
  - apply (Rmult_lt_reg_r (1 + p)); [lra |]. field_simplify; lra.
  - rewrite Hq. field. split; lra.
  - replace ((rating_a - rating_a) / 400) with 0 by lra.
    rewrite Rpower_O by lra. lra.
Qed.

(** [expected_score] is a probability, the two sides of a pairing add up
    to 1, and equal ratings give one half. *)
Theorem expected_score_symmetry (rating_a rating_b : R) :
  0 < expected_score rating_a rating_b < 1
  /\ expected_score rating_a rating_b + expected_score rating_b rating_a = 1
  /\ expected_score rating_a rating_a = 1 / 2.
Proof. exact (expected_score_facts rating_a rating_b). Qed.

(** A higher own rating gives a strictly higher expectation, a higher
    opposing rating a strictly lower one. *)
Theorem expected_score_monotone (rating_a rating_a' rating_b : R) :
  rating_a < rating_a' ->
  expected_score rating_a rating_b < expected_score rating_a' rating_b
  /\ expected_score rating_b rating_a' < expected_score rating_b rating_a.
Proof.
  intros Hlt. unfold expected_score.
  assert (H1 : Rpower 10 ((rating_b - rating_a') / 400)
               < Rpower 10 ((rating_b - rating_a) / 400))
    by (apply Rpower_lt; lra).
  assert (H2 : Rpower 10 ((rating_a - rating_b) / 400)
               < Rpower 10 ((rating_a' - rating_b) / 400))
    by (apply Rpower_lt; lra).
  pose proof (Rpower_pos 10 ((rating_b - rating_a') / 400)).
  pose proof (Rpower_pos 10 ((rating_a - rating_b) / 400)).
  split; unfold Rdiv; rewrite !Rmult_1_l;
    apply Rinv_lt_contravar; try lra; apply Rmult_lt_0_compat; lra.
Qed.

Lemma expected_score_monotone_witness :
  1500 < 1600
  /\ expected_score 1500 1500 < expected_score 1600 1500.
Proof.
  split; [lra |].
  apply (expected_score_monotone 1500 1600 1500). lra.
Defined.

(** The K-factor never grows with experience: with a non-negative base K it
    lies between 0.75 and 1.5 times the base and a player with more matches
    never has the larger K. *)
Theorem get_k_factor_decreasing (self : EloRating) (p q : PlayerRating) :
  0 <= k_factor self ->
  (matches_played p <= matches_played q)%Z ->
  get_k_factor self q <= get_k_factor self p
  /\ k_factor self * 0.75 <= get_k_factor self p <= k_factor self * 1.5.
Proof.
  intros Hk Hle. unfold get_k_factor.
  destruct (Z.ltb_spec (matches_played p) 10),
           (Z.ltb_spec (matches_played p) 30),
           (Z.ltb_spec (matches_played q) 10),
           (Z.ltb_spec (matches_played q) 30);
    try lia; lra.
Qed.

Lemma get_k_factor_decreasing_witness :
  0 <= k_factor (init 1500 32 0.5)
  /\ (matches_played (mkPlayerRating "a" 1500 9 0 0 0)
      <= matches_played (mkPlayerRating "b" 1500 30 0 0 0))%Z
  /\ get_k_factor (init 1500 32 0.5) (mkPlayerRating "b" 1500 30 0 0 0)
     <= get_k_factor (init 1500 32 0.5) (mkPlayerRating "a" 1500 9 0 0 0).
Proof.
  assert (H1 : 0 <= k_factor (init 1500 32 0.5)) by (simpl; lra).
  assert (H2 : (matches_played (mkPlayerRating "a" 1500 9 0 0 0)
                <= matches_played (mkPlayerRating "b" 1500 30 0 0 0))%Z)
    by (simpl; lia).
  split; [exact H1 |]. split; [exact H2 |].
  apply (get_k_factor_decreasing (init 1500 32 0.5) _ _ H1 H2).
Defined.

(** *** What one call of [update_ratings] changes *)

Lemma lookup_update_ne (f : PlayerRating -> PlayerRating) (nm k : string)
    (self : EloRating) :
  k <> nm -> ratings (update f nm self) !! k = ratings self !! k.
Proof. intros H. rewrite ratings_update. by rewrite lookup_alter_ne. Qed.

Lemma lookup_update_eq (f : PlayerRating -> PlayerRating) (nm : string)
    (self : EloRating) (p : PlayerRating) :
  ratings self !! nm = Some p ->
  ratings (update f nm self) !! nm = Some (f p).
Proof. intros H. rewrite ratings_update, lookup_alter_eq. by rewrite H. Qed.

Lemma deref_present (self : EloRating) (nm : string) (p : PlayerRating) :
  ratings self !! nm = Some p -> deref self nm = p.
Proof. intros H. unfold deref. by rewrite (get_rating_present _ _ _ H). Qed.




(** *** A game between two different players *)

Lemma apply_update_distinct (self : EloRating) (a b : string) (x y m : R)
    (pa pb : PlayerRating) :
  a <> b ->
  ratings self !! a = Some pa -> ratings self !! b = Some pb ->
  let e := expected_score (rating pa) (rating pb) in
  let da := get_k_factor self pa * m * (x - e) in
  let db := get_k_factor self pb * m * (y - (1 - e)) in
  fst (apply_update self a b x y m) = (rating pa + da, rating pb + db)
  /\ ratings (snd (apply_update self a b x y m)) !! a
     = Some (add_matches (add_rating da pa))
  /\ ratings (snd (apply_update self a b x y m)) !! b
     = Some (add_matches (add_rating db pb)).
Proof.
  intros Hne Ha Hb. cbv zeta. unfold apply_update.
  rewrite (deref_present _ _ _ Ha), (deref_present _ _ _ Hb).
  set (da := get_k_factor self pa * m * _).
  set (db := get_k_factor self pb * m * _).
  cbn [fst snd].
  assert (La : ratings
                 (update add_matches b
                    (update add_matches a
                       (update (add_rating db) b
                          (update (add_rating da) a self)))) !! a
               = Some (add_matches (add_rating da pa))).
  { rewrite lookup_update_ne by done.
    apply lookup_update_eq. rewrite lookup_update_ne by done.
    by apply lookup_update_eq. }
  assert (Lb : ratings
                 (update add_matches b
                    (update add_matches a
                       (update (add_rating db) b
                          (update (add_rating da) a self)))) !! b
               = Some (add_matches (add_rating db pb))).
  { apply lookup_update_eq. rewrite lookup_update_ne by done.
    apply lookup_update_eq. by rewrite lookup_update_ne. }
  by rewrite (deref_present _ _ _ La), (deref_present _ _ _ Lb).
Qed.

Lemma players_present (self : EloRating) (a b : string) :
  let s2 := snd (get_rating (snd (get_rating self a)) b) in
  ratings s2 !! a = Some (deref self a)
  /\ ratings s2 !! b = Some (deref self b)
  /\ k_factor s2 = k_factor self
  /\ mov_factor s2 = mov_factor self.
Proof.
  cbv zeta. repeat split.
  - apply get_rating_keeps, get_rating_lookup.
  - rewrite get_rating_lookup.
    change (fst (get_rating ?s b)) with (deref s b).
    by rewrite deref_get_rating.
  - unfold get_rating.
    destruct (ratings self !! a); simpl; by destruct (_ !! b).
  - unfold get_rating.
    destruct (ratings self !! a); simpl; by destruct (_ !! b).
Qed.

Lemma get_k_factor_config (s s' : EloRating) (p p' : PlayerRating) :
  k_factor s = k_factor s' -> matches_played p = matches_played p' ->
  get_k_factor s p = get_k_factor s' p'.
Proof. intros H1 H2. unfold get_k_factor. by rewrite H1, H2. Qed.

Lemma get_k_factor_nonneg (self : EloRating) (p : PlayerRating) :
  0 <= k_factor self -> 0 <= get_k_factor self p.
Proof.
  intros H. unfold get_k_factor.
  destruct (_ <? 10)%Z; [lra |]. destruct (_ <? 30)%Z; lra.
Qed.

(** The multiplier of a decisive result with scores that count games. *)
Lemma decisive_multiplier (self : EloRating) (w l : Z) :
  (0 <= l < w)%Z ->
  margin_multiplier self w l (w + l)
  = Ok (1 + mov_factor self * ln (1 + 2 * margin w l (w + l)))
  /\ (0 <= mov_factor self ->
      1 <= 1 + mov_factor self * ln (1 + 2 * margin w l (w + l))).
Proof.
  intros Hwl.
  assert (Hv : forall s : EloRating,
             0 <= mov_factor s -> valid s w l (w + l))
    by (intros s Hs; unfold valid; repeat split; try lia; done).
  assert (Hm : 0 < margin w l (w + l)).
  { unfold margin. apply Rdiv_lt_0_compat; apply (IZR_lt 0); lia. }
  split.
  - rewrite margin_multiplier_formula; [| lia | lra].
    by rewrite (Rmult_comm (margin w l (w + l))).
  - intros Hmov.
    destruct (margin_multiplier_facts self w l (w + l)) as [_ H].
    by destruct (H (Hv self Hmov)) as (_ & H1 & _).
Qed.

(** The records after a win of the first player. *)
Lemma update_ratings_win_records (self : EloRating) (a b : string) (sa sb : Z) :
  a <> b -> (0 <= sb < sa)%Z ->
  0 <= k_factor self -> 0 <= mov_factor self ->
  let pa := deref self a in
  let pb := deref self b in
  let r := update_ratings self a b sa sb in
  exists ra rb : R,
    fst r = Ok (ra, rb)
    /\ ratings (snd r) !! a
       = Some (mkPlayerRating (name pa) ra (matches_played pa + 1)
                              (wins pa + 1) (losses pa) (draws pa))
    /\ ratings (snd r) !! b
       = Some (mkPlayerRating (name pb) rb (matches_played pb + 1)
                              (wins pb) (losses pb + 1) (draws pb))
    /\ rating pa <= ra /\ rb <= rating pb.
Proof.
  intros Hne Hs Hk Hmov. cbv zeta.
  destruct (players_present self a b) as (Pa & Pb & Ck & Cm).
  set (s2 := snd (get_rating (snd (get_rating self a)) b)) in *.
  set (s3 := update add_losses b (update add_wins a s2)).
  assert (La : ratings s3 !! a = Some (add_wins (deref self a))).
  { unfold s3. rewrite lookup_update_ne by done. by apply lookup_update_eq. }
  assert (Lb : ratings s3 !! b = Some (add_losses (deref self b))).
  { unfold s3. apply lookup_update_eq. by rewrite lookup_update_ne. }
  destruct (decisive_multiplier s3 sa sb Hs) as [Hm Hm1].
  specialize (Hm1 ltac:(by rewrite <- Cm in Hmov)).
  set (m := 1 + mov_factor s3 * _) in *.
  destruct (apply_update_distinct s3 a b 1 0 m _ _ Hne La Lb)
    as (Hr & Ha & Hb).
  pose proof (expected_score_facts (rating (deref self a))
                (rating (deref self b))) as ((He0 & He1) & _).
  assert (Hka : 0 <= get_k_factor s3 (add_wins (deref self a)))
    by (apply get_k_factor_nonneg; by rewrite <- Ck in Hk).
  assert (Hkb : 0 <= get_k_factor s3 (add_losses (deref self b)))
    by (apply get_k_factor_nonneg; by rewrite <- Ck in Hk).
  unfold update_ratings. fold s2.
  destruct (Z.eqb_spec (sa + sb) 0); [lia |].
  destruct (Z.ltb_spec sb sa); [| lia].
  fold s3. rewrite Hm.
  destruct (apply_update s3 a b 1 0 m) as [[ra rb] s4].
  cbn [fst snd] in *. injection Hr as -> ->.
  eexists _, _. split; [reflexivity |].
  split; [exact Ha |]. split; [exact Hb |].
  cbn [add_wins add_losses rating].
  set (e := expected_score _ _) in *.
  set (ka := get_k_factor s3 (add_wins (deref self a))) in *.
  set (kb := get_k_factor s3 (add_losses (deref self b))) in *.
  clearbody e m ka kb.
  split.
  - assert (0 <= ka * m * (1 - e))
      by (apply Rmult_le_pos; [apply Rmult_le_pos |]; lra).
    lra.
  - assert (0 <= kb * m * (1 - e))
      by (apply Rmult_le_pos; [apply Rmult_le_pos |]; lra).
    lra.
Qed.

(** When the first player wins a game against a different player (scores
    that count games, non-negative base K and margin factor), the call
    returns the two new ratings; the winner gets one more win and match and
    a rating that is not lower, the loser one more loss and match and a
    rating that is not higher; names and the other counters stay. *)
Theorem update_ratings_win (self : EloRating) (a b : string) (sa sb : Z) :
  a <> b -> (0 <= sb < sa)%Z ->
  0 <= k_factor self -> 0 <= mov_factor self ->
  let pa := deref self a in
  let pb := deref self b in
  let r := update_ratings self a b sa sb in
  exists ra rb : R,
    fst r = Ok (ra, rb)
    /\ ratings (snd r) !! a
       = Some (mkPlayerRating (name pa) ra (matches_played pa + 1)
                              (wins pa + 1) (losses pa) (draws pa))
    /\ ratings (snd r) !! b
       = Some (mkPlayerRating (name pb) rb (matches_played pb + 1)
                              (wins pb) (losses pb + 1) (draws pb))
    /\ rating pa <= ra /\ rb <= rating pb.
Proof. exact (update_ratings_win_records self a b sa sb). Qed.

Lemma update_ratings_win_witness :
  "a" <> "b" /\ (0 <= 1 < 3)%Z
  /\ 0 <= k_factor (init 1500 32 0.5)
  /\ 0 <= mov_factor (init 1500 32 0.5)
  /\ exists ra rb : R,
       fst (update_ratings (init 1500 32 0.5) "a" "b" 3 1) = Ok (ra, rb)
       /\ 1500 <= ra /\ rb <= 1500.
Proof.
  assert (H1 : "a" <> "b") by discriminate.
  assert (H2 : (0 <= 1 < 3)%Z) by lia.
  assert (H3 : 0 <= k_factor (init 1500 32 0.5)) by (simpl; lra).
  assert (H4 : 0 <= mov_factor (init 1500 32 0.5)) by (simpl; lra).
  do 4 (split; [assumption |]).
  destruct (update_ratings_win (init 1500 32 0.5) "a" "b" 3 1 H1 H2 H3 H4)
    as (ra & rb & Hr & _ & _ & Ha & Hb).
  exists ra, rb. split; [exact Hr |]. split; [exact Ha | exact Hb].
Defined.

(** The return value of a game between two different players, whatever
    its outcome: with [x], [y] the actual scores and [m] the multiplier. *)
Lemma update_ratings_distinct (self : EloRating) (a b : string) (sa sb : Z) :
  a <> b -> (0 <= sa)%Z -> (0 <= sb)%Z -> (sa + sb <> 0)%Z ->
  let pa := deref self a in
  let pb := deref self b in
  let e := expected_score (rating pa) (rating pb) in
  exists x y m : R,
    x + y = 1
    /\ (sa = sb -> x = 0.5 /\ m = 1)
    /\ fst (update_ratings self a b sa sb)
       = Ok (rating pa + get_k_factor self pa * m * (x - e),
             rating pb + get_k_factor self pb * m * (y - (1 - e))).
Proof.
  intros Hne Ha Hb Hz. cbv zeta.
  destruct (players_present self a b) as (Pa & Pb & Ck & Cm).
  set (s2 := snd (get_rating (snd (get_rating self a)) b)) in *.
  assert (Hstep : forall (fa fb : PlayerRating -> PlayerRating) (x y m : R),
             (forall p, rating (fa p) = rating p
                        /\ matches_played (fa p) = matches_played p) ->
             (forall p, rating (fb p) = rating p
                        /\ matches_played (fb p) = matches_played p) ->
             fst (apply_update (update fb b (update fa a s2)) a b x y m)
             = (rating (deref self a)
                + get_k_factor self (deref self a) * m
                  * (x - expected_score (rating (deref self a))
                                        (rating (deref self b))),
                rating (deref self b)
                + get_k_factor self (deref self b) * m
                  * (y - (1 - expected_score (rating (deref self a))
                                             (rating (deref self b)))))).
  { intros fa fb x y m Hfa Hfb.
    set (s3 := update fb b (update fa a s2)).
    assert (La : ratings s3 !! a = Some (fa (deref self a))).
    { unfold s3. rewrite lookup_update_ne by done.
      by apply lookup_update_eq. }
    assert (Lb : ratings s3 !! b = Some (fb (deref self b))).
    { unfold s3. apply lookup_update_eq. by rewrite lookup_update_ne. }
    destruct (apply_update_distinct s3 a b x y m _ _ Hne La Lb) as (Hr & _).
    rewrite Hr.
    destruct (Hfa (deref self a)) as [-> Ma], (Hfb (deref self b)) as [-> Mb].
    by rewrite (get_k_factor_config s3 self _ (deref self a) Ck Ma),
               (get_k_factor_config s3 self _ (deref self b) Ck Mb). }
  unfold update_ratings. fold s2.
  destruct (Z.eqb_spec (sa + sb) 0); [done |].
  destruct (Z.ltb_spec sb sa); [| destruct (Z.ltb_spec sa sb)].
  - destruct (decisive_multiplier
                (update add_losses b (update add_wins a s2)) sa sb)
      as [-> _]; [lia |].
    specialize (Hstep add_wins add_losses 1 0
                  (1 + mov_factor (update add_losses b (update add_wins a s2))
                       * ln (1 + 2 * margin sa sb (sa + sb)))
                  ltac:(done) ltac:(done)).
    destruct (apply_update _ a b 1 0 _) as [r s4]. cbn [fst] in *.
    eexists 1, 0, _. rewrite Hstep.
    split; [lra |]. split; [lia | reflexivity].
  - rewrite (Z.add_comm sa sb).
    destruct (decisive_multiplier
                (update add_wins b (update add_losses a s2)) sb sa)
      as [-> _]; [lia |].
    specialize (Hstep add_losses add_wins 0 1
                  (1 + mov_factor (update add_wins b (update add_losses a s2))
                       * ln (1 + 2 * margin sb sa (sb + sa)))
                  ltac:(done) ltac:(done)).
    destruct (apply_update _ a b 0 1 _) as [r s4]. cbn [fst] in *.
    eexists 0, 1, _. rewrite Hstep.
    split; [lra |]. split; [lia | reflexivity].
  - specialize (Hstep add_draws add_draws 0.5 0.5 1
                  ltac:(done) ltac:(done)).
    destruct (apply_update _ a b 0.5 0.5 1) as [r s4]. cbn [fst] in *.
    exists 0.5, 0.5, 1. rewrite Hstep.
    split; [lra |]. split; [done | reflexivity].
Qed.

(** When the two players are different and have the same K-factor, a game
    moves rating points from one to the other: the two returned ratings add
    up to what the two ratings added up to before. *)
Theorem update_ratings_zero_sum (self : EloRating) (a b : string)
    (sa sb : Z) :
  a <> b -> (0 <= sa)%Z -> (0 <= sb)%Z ->
  get_k_factor self (deref self a) = get_k_factor self (deref self b) ->
  exists ra rb : R,
    fst (update_ratings self a b sa sb) = Ok (ra, rb)
    /\ ra + rb = rating (deref self a) + rating (deref self b).
Proof.
  intros Hne Ha Hb Hk.
  destruct (Z.eq_dec (sa + sb)%Z 0%Z) as [Hz | Hz].
  - pose proof (update_ratings_zero_total self a b sa sb Hz) as Hr.
    eexists _, _. split; [exact Hr | reflexivity].
  - destruct (update_ratings_distinct self a b sa sb Hne Ha Hb Hz)
      as (x & y & m & Hxy & _ & Hr).
    eexists _, _. split; [exact Hr |].
    rewrite Hk.
    set (e := expected_score _ _). set (k := get_k_factor _ _).
    clearbody e k. replace y with (1 - x) by lra. ring.
Qed.

Lemma update_ratings_zero_sum_witness :
  "a" <> "b" /\ (0 <= 3)%Z /\ (0 <= 1)%Z
  /\ get_k_factor (init 1500 32 0.5) (deref (init 1500 32 0.5) "a")
     = get_k_factor (init 1500 32 0.5) (deref (init 1500 32 0.5) "b")
  /\ exists ra rb : R,
       fst (update_ratings (init 1500 32 0.5) "a" "b" 3 1) = Ok (ra, rb)
       /\ ra + rb
          = rating (deref (init 1500 32 0.5) "a")
            + rating (deref (init 1500 32 0.5) "b").
Proof.
  assert (H1 : "a" <> "b") by discriminate.
  assert (H2 : (0 <= 3)%Z) by lia.
  assert (H3 : (0 <= 1)%Z) by lia.
  assert (H4 : get_k_factor (init 1500 32 0.5) (deref (init 1500 32 0.5) "a")
               = get_k_factor (init 1500 32 0.5)
                   (deref (init 1500 32 0.5) "b")) by reflexivity.
  do 4 (split; [assumption |]).
  apply (update_ratings_zero_sum (init 1500 32 0.5) "a" "b" 3 1 H1 H2 H3 H4).
Defined.

(** A tie between two different players with equal ratings changes neither
    rating; in general a tie moves each rating by its K times the gap
    between one half and the expected score, without any margin
    multiplier. *)
Theorem update_ratings_tie (self : EloRating) (a b : string) (sc : Z) :
  a <> b -> (0 < sc)%Z ->
  let pa := deref self a in
  let pb := deref self b in
  let e := expected_score (rating pa) (rating pb) in
  fst (update_ratings self a b sc sc)
  = Ok (rating pa + get_k_factor self pa * (0.5 - e),
        rating pb + get_k_factor self pb * (e - 0.5))
  /\ (rating pa = rating pb ->
      fst (update_ratings self a b sc sc) = Ok (rating pa, rating pb)).
Proof.
  intros Hne Hsc. cbv zeta.
  destruct (update_ratings_distinct self a b sc sc Hne) as
    (x & y & m & Hxy & Hxm & Hr); try lia.
  destruct (Hxm eq_refl) as [-> ->]. rewrite Hr.
  assert (y = 0.5) as -> by lra.
  split.
  - f_equal. f_equal; lra.
  - intros Heq. rewrite Heq.
    destruct (expected_score_facts (rating (deref self b))
                (rating (deref self b))) as (_ & _ & ->).
    f_equal. f_equal; lra.
Qed.

Lemma update_ratings_tie_witness :
  "a" <> "b" /\ (0 < 5)%Z
  /\ fst (update_ratings (init 1500 32 0.5) "a" "b" 5 5)
     = Ok (rating (deref (init 1500 32 0.5) "a"),
           rating (deref (init 1500 32 0.5) "b")).
Proof.
  assert (H1 : "a" <> "b") by discriminate.
  assert (H2 : (0 < 5)%Z) by lia.
  split; [exact H1 |]. split; [exact H2 |].
  apply (update_ratings_tie (init 1500 32 0.5) "a" "b" 5 H1 H2).
  reflexivity.
Defined.

(** *** A player matched with itself *)

(** With the same name on both sides both references are the one stored
    record: the two rating updates cancel, so the rating is unchanged, while
    the record counts two matches and two outcomes (a win and a loss, or two
    draws). *)
Theorem update_ratings_same_player (self : EloRating) (a : string)
    (sa sb : Z) :
  (0 <= sa)%Z -> (0 <= sb)%Z -> (sa + sb <> 0)%Z ->
  let p := deref self a in
  let r := update_ratings self a a sa sb in
  fst r = Ok (rating p, rating p)
  /\ exists p' : PlayerRating,
       ratings (snd r) !! a = Some p'
       /\ rating p' = rating p
       /\ matches_played p' = (matches_played p + 2)%Z
       /\ (wins p' + losses p' + draws p'
           = wins p + losses p + draws p + 2)%Z
       /\ (sa <> sb -> wins p' = (wins p + 1)%Z
                       /\ losses p' = (losses p + 1)%Z)
       /\ (sa = sb -> draws p' = (draws p + 2)%Z).
Proof.
  intros Ha Hb Hz. cbv zeta.
  destruct (players_present self a a) as (Pa & _ & Ck & _).
  set (s2 := snd (get_rating (snd (get_rating self a)) a)) in *.
  assert (Hstep : forall (fa fb : PlayerRating -> PlayerRating) (x y m : R),
             x + y = 1 ->
             (forall p, rating (fa p) = rating p) ->
             (forall p, rating (fb p) = rating p) ->
             let s3 := update fb a (update fa a s2) in
             let q := fb (fa (deref self a)) in
             fst (apply_update s3 a a x y m)
             = (rating (deref self a), rating (deref self a))
             /\ exists p' : PlayerRating,
                  ratings (snd (apply_update s3 a a x y m)) !! a = Some p'
                  /\ rating p' = rating (deref self a)
                  /\ matches_played p' = (matches_played q + 2)%Z
                  /\ wins p' = wins q /\ losses p' = losses q
                  /\ draws p' = draws q).
  { intros fa fb x y m Hxy Hfa Hfb s3 q.
    assert (L3 : ratings s3 !! a = Some q).
    { unfold s3, q. apply lookup_update_eq. by apply lookup_update_eq. }
    unfold apply_update. cbv zeta. rewrite !(deref_present _ _ _ L3).
    set (da := get_k_factor s3 q * m * (x - _)).
    set (db := get_k_factor s3 q * m * (y - _)).
    assert (L4 : ratings
                   (update add_matches a
                      (update add_matches a
                         (update (add_rating db) a
                            (update (add_rating da) a s3)))) !! a
                 = Some (add_matches
                           (add_matches (add_rating db (add_rating da q))))).
    { do 4 apply lookup_update_eq. exact L3. }
    cbn [fst snd]. rewrite (deref_present _ _ _ L4).
    assert (Hr : rating (add_matches
                           (add_matches (add_rating db (add_rating da q))))
                 = rating (deref self a)).
    { cbn [rating add_matches add_rating]. unfold q.
      unfold da, db, q. rewrite !Hfb, !Hfa.
      destruct (expected_score_facts (rating (deref self a))
                  (rating (deref self a))) as (_ & _ & ->).
      replace y with (1 - x) by lra. lra. }
    rewrite Hr. split; [done |].
    eexists. split; [exact L4 |]. split; [exact Hr |].
    cbn [matches_played wins losses draws add_matches add_rating].
    repeat split. lia. }
  unfold update_ratings. fold s2.
  destruct (Z.eqb_spec (sa + sb) 0); [done |].
  destruct (Z.ltb_spec sb sa); [| destruct (Z.ltb_spec sa sb)].
  - destruct (decisive_multiplier
                (update add_losses a (update add_wins a s2)) sa sb)
      as [-> _]; [lia |].
    destruct (Hstep add_wins add_losses 1 0
                (1 + mov_factor (update add_losses a (update add_wins a s2))
                     * ln (1 + 2 * margin sa sb (sa + sb))))
      as (Hr & p' & L & R1 & M & W & Lo & D); [lra | done | done |].
    destruct (apply_update _ a a 1 0 _) as [r s4]. cbn [fst snd] in *.
    rewrite Hr. split; [done |]. exists p'. split; [exact L |].
    cbn [add_wins add_losses matches_played wins losses draws] in *.
    repeat split; try done; lia.
  - rewrite (Z.add_comm sa sb).
    destruct (decisive_multiplier
                (update add_wins a (update add_losses a s2)) sb sa)
      as [-> _]; [lia |].
    destruct (Hstep add_losses add_wins 0 1
                (1 + mov_factor (update add_wins a (update add_losses a s2))
                     * ln (1 + 2 * margin sb sa (sb + sa))))
      as (Hr & p' & L & R1 & M & W & Lo & D); [lra | done | done |].
    destruct (apply_update _ a a 0 1 _) as [r s4]. cbn [fst snd] in *.
    rewrite Hr. split; [done |]. exists p'. split; [exact L |].
    cbn [add_wins add_losses matches_played wins losses draws] in *.
    repeat split; try done; lia.
  - destruct (Hstep add_draws add_draws 0.5 0.5 1)
      as (Hr & p' & L & R1 & M & W & Lo & D); [lra | done | done |].
    destruct (apply_update _ a a 0.5 0.5 1) as [r s4]. cbn [fst snd] in *.
    rewrite Hr. split; [done |]. exists p'. split; [exact L |].
    cbn [add_draws matches_played wins losses draws] in *.
    repeat split; try done; lia.
Qed.

Lemma update_ratings_same_player_witness :
  (0 <= 3)%Z /\ (0 <= 1)%Z /\ (3 + 1 <> 0)%Z
  /\ fst (update_ratings (init 1500 32 0.5) "a" "a" 3 1)
     = Ok (rating (deref (init 1500 32 0.5) "a"),
           rating (deref (init 1500 32 0.5) "a")).
Proof.
  assert (H1 : (0 <= 3)%Z) by lia.
  assert (H2 : (0 <= 1)%Z) by lia.
  assert (H3 : (3 + 1 <> 0)%Z) by lia.
  do 3 (split; [assumption |]).
  apply (update_ratings_same_player (init 1500 32 0.5) "a" 3 1 H1 H2 H3).
Defined.

(** *** Stored records *)

Lemma stored_get_rating (Q : string -> PlayerRating -> Prop)
    (self : EloRating) (nm : string) :
  Q nm (new_player self nm) ->
  (forall k p, ratings self !! k = Some p -> Q k p) ->
  forall k p, ratings (snd (get_rating self nm)) !! k = Some p -> Q k p.
Proof.
  intros Hnew H k p. destruct (decide (k = nm)) as [-> | Hne].
  - rewrite get_rating_lookup. unfold get_rating.
    destruct (ratings self !! nm) as [q |] eqn:E; simpl.
    + intros [= <-]. by apply H.
    + by intros [= <-].
  - rewrite get_rating_lookup_ne by done. apply H.
Qed.

Lemma stored_update (Q : string -> PlayerRating -> Prop)
    (f : PlayerRating -> PlayerRating) (self : EloRating) (nm : string) :
  (forall p, Q nm p -> Q nm (f p)) ->
  (forall k p, ratings self !! k = Some p -> Q k p) ->
  forall k p, ratings (update f nm self) !! k = Some p -> Q k p.
Proof.
  intros Hf H k p. destruct (decide (k = nm)) as [-> | Hne].
  - rewrite ratings_update, lookup_alter_eq.
    destruct (ratings self !! nm) as [q |] eqn:E; simpl; [| done].
    intros [= <-]. apply Hf. by apply H.
  - rewrite lookup_update_ne by done. apply H.
Qed.

(** A property of stored records that holds for fresh records and is kept
    by every attribute update holds after every call, returning or not. *)
Lemma stored_update_ratings (Q : string -> PlayerRating -> Prop)
    (self : EloRating) (a b : string) (sa sb : Z) :
  (forall (nm : string) (ir : R), Q nm (mkPlayerRating nm ir 0 0 0 0)) ->
  (forall k p, Q k p ->
     Q k (add_wins p) /\ Q k (add_losses p) /\ Q k (add_draws p)
     /\ Q k (add_matches p) /\ forall d, Q k (add_rating d p)) ->
  (forall k p, ratings self !! k = Some p -> Q k p) ->
  forall k p,
    ratings (snd (update_ratings self a b sa sb)) !! k = Some p -> Q k p.
Proof.
  intros Hnew Hadd H.
  assert (H2 : forall k p,
             ratings (snd (get_rating (snd (get_rating self a)) b)) !! k
             = Some p -> Q k p).
  { apply stored_get_rating; [apply Hnew |].
    apply stored_get_rating; [apply Hnew | done]. }
  set (s2 := snd (get_rating (snd (get_rating self a)) b)) in *.
  assert (Hap : forall (s3 : EloRating) (x y m : R),
             (forall k p, ratings s3 !! k = Some p -> Q k p) ->
             forall k p,
               ratings (snd (apply_update s3 a b x y m)) !! k = Some p ->
               Q k p).
  { intros s3 x y m H3. unfold apply_update. cbv zeta. cbn [snd].
    apply stored_update; [intros; by apply Hadd |].
    apply stored_update; [intros; by apply Hadd |].
    apply stored_update; [intros; by apply Hadd |].
    apply stored_update; [intros; by apply Hadd | done]. }
  unfold update_ratings. fold s2.
  destruct (_ =? 0)%Z; [done |].
  destruct (sb <? sa)%Z; [| destruct (sa <? sb)%Z].
  - assert (H3 : forall k p,
               ratings (update add_losses b (update add_wins a s2)) !! k
               = Some p -> Q k p).
    { apply stored_update; [intros; by apply Hadd |].
      apply stored_update; [intros; by apply Hadd | done]. }
    destruct (margin_multiplier _ _ _ _) as [m |]; [| done].
    specialize (Hap _ 1 0 m H3).
    by destruct (apply_update _ a b 1 0 m).
  - assert (H3 : forall k p,
               ratings (update add_wins b (update add_losses a s2)) !! k
               = Some p -> Q k p).
    { apply stored_update; [intros; by apply Hadd |].
      apply stored_update; [intros; by apply Hadd | done]. }
    destruct (margin_multiplier _ _ _ _) as [m |]; [| done].
    specialize (Hap _ 0 1 m H3).
    by destruct (apply_update _ a b 0 1 m).
  - assert (H3 : forall k p,
               ratings (update add_draws b (update add_draws a s2)) !! k
               = Some p -> Q k p).
    { apply stored_update; [intros; by apply Hadd |].
      apply stored_update; [intros; by apply Hadd | done]. }
    specialize (Hap _ 0.5 0.5 1 H3).
    by destruct (apply_update _ a b 0.5 0.5 1).
Qed.

(** In every state reached from a fresh rating system, each record is
    stored under its own name, no counter is negative, and the win rate is
    a fraction between 0 and 1. *)
Theorem reachable_records (self : EloRating) (k : string)
    (p : PlayerRating) :
  reachable self -> ratings self !! k = Some p ->
  name p = k
  /\ (0 <= wins p)%Z /\ (0 <= losses p)%Z /\ (0 <= draws p)%Z
  /\ (0 <= matches_played p)%Z
  /\ 0 <= win_rate p <= 1.
Proof.
  intros Hr Hk.
  set (Q := fun (k : string) (p : PlayerRating) =>
              name p = k /\ (0 <= wins p)%Z /\ (0 <= losses p)%Z
              /\ (0 <= draws p)%Z /\ (0 <= matches_played p)%Z).
  assert (HQ : forall k p, ratings self !! k = Some p -> Q k p).
  { clear k p Hk. induction Hr.
    - intros nm p E. simpl in E. by rewrite lookup_empty in E.
    - apply stored_get_rating; [| done]. unfold Q. simpl.
      repeat split; (done || lia).
    - apply stored_update_ratings; [| | done].
      + intros nm ir0. unfold Q. simpl. repeat split; (done || lia).
      + intros k p (? & ? & ? & ? & ?). unfold Q. simpl.
        repeat split; try done; lia. }
  destruct (HQ k p Hk) as (Hn & Hw & Hl & Hd & Hm).
  repeat split; try done.
  - unfold win_rate. destruct (Z.eqb_spec (matches_played p) 0); [lra |].
    apply Rmult_le_pos; [by apply (IZR_le 0) |].
    left. apply Rinv_0_lt_compat, (IZR_lt 0). lia.
  - unfold win_rate. destruct (Z.eqb_spec (matches_played p) 0); [lra |].
    pose proof (reachable_invariant self Hr) as Hinv.
    specialize (Hinv k p Hk). unfold counters_ok in Hinv.
    assert (0 < IZR (matches_played p)) by (apply (IZR_lt 0); lia).
    assert (IZR (wins p) <= IZR (matches_played p)) by (apply IZR_le; lia).
    apply (Rmult_le_reg_r (IZR (matches_played p))); [done |].
    unfold Rdiv. rewrite Rmult_assoc, Rinv_l by lra. lra.
Qed.

Lemma reachable_records_witness :
  reachable (snd (get_rating (init 1500 32 0.5) "a"))
  /\ ratings (snd (get_rating (init 1500 32 0.5) "a")) !! "a"
     = Some (mkPlayerRating "a" 1500 0 0 0 0)
  /\ 0 <= win_rate (mkPlayerRating "a" 1500 0 0 0 0) <= 1.
Proof.
  assert (H1 : reachable (snd (get_rating (init 1500 32 0.5) "a")))
    by apply reach_get, reach_init.
  assert (H2 : ratings (snd (get_rating (init 1500 32 0.5) "a")) !! "a"
               = Some (mkPlayerRating "a" 1500 0 0 0 0)) by reflexivity.
  split; [exact H1 |]. split; [exact H2 |].
  apply (reachable_records _ "a" _ H1 H2).
Defined.

(** Asking for a rating twice gives the same record and changes nothing the
    second time, and asking never replaces a record that is stored. *)
Theorem get_rating_idempotent (self : EloRating) (nm : string) :
  get_rating (snd (get_rating self nm)) nm
  = (fst (get_rating self nm), snd (get_rating self nm))
  /\ (forall (k : string) (p : PlayerRating),
        ratings self !! k = Some p ->
        ratings (snd (get_rating self nm)) !! k = Some p
        /\ get_rating self k = (p, self)).
Proof.
  split.
  - apply get_rating_present, get_rating_lookup.
  - intros k p E. split; [by apply get_rating_keeps |].
    by apply get_rating_present.
Qed.

(** The invariant after a game that was played: "a" beats "b" 3 to 1 in a
    fresh rating system, then the two draw. *)
Lemma counters_invariant_witness :
  let s0 := init 1500 32 0.5 in
  let s1 := snd (update_ratings s0 "a" "b" 3 1) in
  is_ok (fst (update_ratings s0 "a" "b" 3 1)) = true
  /\ reachable s1
  /\ (exists ra rb : R,
        ratings s1 !! "a" = Some (mkPlayerRating "a" ra 1 1 0 0)
        /\ ratings s1 !! "b" = Some (mkPlayerRating "b" rb 1 0 1 0))
  /\ invariant s1
  /\ is_ok (fst (update_ratings s1 "b" "a" 2 2)) = true
  /\ invariant (snd (update_ratings s1 "b" "a" 2 2)).
Proof.
  cbv zeta.
  assert (Hok : is_ok (fst (update_ratings (init 1500 32 0.5) "a" "b" 3 1))
                = true)
    by (apply update_ratings_returns; lia).
  assert (Hreach : reachable (snd (update_ratings (init 1500 32 0.5)
                                     "a" "b" 3 1)))
    by (apply reach_update; [apply reach_init | exact Hok]).
  split; [exact Hok |]. split; [exact Hreach |]. split.
  - assert (H1 : "a" <> "b") by discriminate.
    assert (H2 : (0 <= 1 < 3)%Z) by lia.
    assert (H3 : 0 <= k_factor (init 1500 32 0.5)) by (simpl; lra).
    assert (H4 : 0 <= mov_factor (init 1500 32 0.5)) by (simpl; lra).
    destruct (update_ratings_win_records (init 1500 32 0.5) "a" "b" 3 1
                H1 H2 H3 H4) as (ra & rb & _ & Ha & Hb & _).
    exists ra, rb. split; [exact Ha | exact Hb].
  - destruct (counters_invariant _ Hreach) as (Hinv & Hkeep & Hret).
    split; [exact Hinv |].
    assert (Hok2 : is_ok (fst (update_ratings
                                 (snd (update_ratings (init 1500 32 0.5)
                                         "a" "b" 3 1)) "b" "a" 2 2)) = true)
      by (apply Hret; lia).
    split; [exact Hok2 | by apply Hkeep].
Defined.

End EloMore.

(** * Further properties of the paired comparison *)

Module PairedEvalMore.
Import PairedEval PairedEvalFacts.

Lemma np_sum_sub (a b : list R) :
  length a = length b -> np_sum (np_sub a b) = np_sum a - np_sum b.
Proof.
  revert b. induction a as [| x a IH]; intros [| y b] H; simpl in *;
    try done; [lra |].
  rewrite IH by lia. lra.
Qed.

Lemma INR_length_pos (a : list R) : (1 <= length a)%nat -> 0 < INR (length a).
Proof. intros H. apply lt_0_INR. lia. Qed.

(** The mean of the deltas is the difference of the two means. *)
Theorem mean_delta_is_difference (cand base : list R) :
  length cand = length base -> (1 <= length cand)%nat ->
  mean_delta (paired_compare cand base)
  = fsub (cand_mean (paired_compare cand base))
         (base_mean (paired_compare cand base)).
Proof.
  intros Hlen Hn. unfold paired_compare. cbn [mean_delta cand_mean base_mean].
  rewrite !np_mean_fin by (rewrite ?np_sub_length; lia).
  rewrite np_sub_length, np_sum_sub, <- Hlen by done. simpl. f_equal.
  pose proof (INR_length_pos cand Hn). field. lra.
Qed.

Lemma mean_delta_is_difference_witness :
  length [10; 12; 8] = length [8; 8; 8]
  /\ (1 <= length [10; 12; 8])%nat
  /\ mean_delta (paired_compare [10; 12; 8] [8; 8; 8])
     = fsub (cand_mean (paired_compare [10; 12; 8] [8; 8; 8]))
            (base_mean (paired_compare [10; 12; 8] [8; 8; 8])).
Proof.
  assert (H1 : length [10; 12; 8] = length [8; 8; 8]) by reflexivity.
  assert (H2 : (1 <= length [10; 12; 8])%nat) by (simpl; lia).
  split; [exact H1 |]. split; [exact H2 |].
  apply (mean_delta_is_difference [10; 12; 8] [8; 8; 8] H1 H2).
Defined.

(** *** Sums over indices *)

Lemma big_sum_ext (f g : nat -> R) (k : nat) :
  (forall i, (i < k)%nat -> f i = g i) -> big_sum f k = big_sum g k.
Proof.
  induction k as [| k IH]; intros H; simpl; [done |].
  rewrite IH, H by (intros; try apply H; lia). done.
Qed.

Lemma big_sum_opp (f : nat -> R) (k : nat) :
  big_sum (fun i => - f i) k = - big_sum f k.
Proof. induction k as [| k IH]; simpl; [lra | rewrite IH; lra]. Qed.

Lemma big_sum_zero (f : nat -> R) (k : nat) :
  (forall i, (i < k)%nat -> f i = 0) -> big_sum f k = 0.
Proof.
  induction k as [| k IH]; intros H; simpl; [done |].
  rewrite IH, H by (intros; try apply H; lia). lra.
Qed.

Lemma big_sum_nonneg (f : nat -> R) (k : nat) :
  (forall i, 0 <= f i) -> 0 <= big_sum f k.
Proof.
  intros H. induction k as [| k IH]; simpl; [lra |].
  specialize (H k). lra.
Qed.

Lemma count_upto_le (p : nat -> bool) (k : nat) : (count_upto p k <= k)%nat.
Proof. induction k as [| k IH]; simpl; [lia |]. destruct (p k); lia. Qed.

Lemma count_upto_none (p : nat -> bool) (k : nat) :
  (forall i, (i < k)%nat -> p i = false) -> count_upto p k = 0%nat.
Proof.
  induction k as [| k IH]; intros H; simpl; [done |].
  rewrite IH, H by (intros; try apply H; lia). done.
Qed.

Lemma spec_delta_swap (cand base : list R) (i : nat) :
  spec_delta base cand i = - spec_delta cand base i.
Proof. unfold spec_delta. lra. Qed.

Lemma spec_mean_delta_swap (cand base : list R) :
  length cand = length base ->
  spec_mean_delta base cand = - spec_mean_delta cand base.
Proof.
  intros Hlen. unfold spec_mean_delta. rewrite <- Hlen.
  rewrite (big_sum_ext _ (fun i => - spec_delta cand base i))
    by (intros; apply spec_delta_swap).
  rewrite big_sum_opp. unfold Rdiv. lra.
Qed.

Lemma spec_se_swap (cand base : list R) :
  length cand = length base -> spec_se base cand = spec_se cand base.
Proof.
  intros Hlen. unfold spec_se, spec_std_delta. rewrite <- Hlen.
  destruct (1 <? length cand)%nat; [| done].
  do 3 f_equal. apply big_sum_ext. intros i _.
  rewrite (spec_delta_swap cand base), (spec_mean_delta_swap cand base)
    by done.
  unfold Rsqr. lra.
Qed.

(** Swapping candidate and baseline negates [mean_delta] and [t_stat] and
    leaves [se] and [p_value] as they are. *)
Theorem paired_compare_swap (cand base : list R) :
  length cand = length base -> (1 <= length cand)%nat ->
  exists d s t p : R,
    mean_delta (paired_compare cand base) = Fin d
    /\ mean_delta (paired_compare base cand) = Fin (- d)
    /\ se (paired_compare cand base) = Fin s
    /\ se (paired_compare base cand) = Fin s
    /\ t_stat (paired_compare cand base) = Fin t
    /\ t_stat (paired_compare base cand) = Fin (- t)
    /\ p_value (paired_compare cand base) = Fin p
    /\ p_value (paired_compare base cand) = Fin p.
Proof.
  intros Hlen Hn.
  destruct (paired_compare_eqs cand base Hlen Hn)
    as (_ & Hm & Hs & Ht & Hp & _).
  destruct (paired_compare_eqs base cand (eq_sym Hlen)
              ltac:(by rewrite <- Hlen)) as (_ & Hm' & Hs' & Ht' & Hp' & _).
  assert (Et : spec_t_stat base cand = - spec_t_stat cand base).
  { unfold spec_t_stat.
    rewrite (spec_se_swap cand base), (spec_mean_delta_swap cand base)
      by done.
    destruct (Rltb 0 (spec_se cand base)) eqn:E; [| lra].
    apply Rltb_true in E. field. lra. }
  exists (spec_mean_delta cand base), (spec_se cand base),
         (spec_t_stat cand base), (spec_p_value cand base).
  rewrite Hm, Hs, Ht, Hp, Hm', Hs', Ht', Hp'.
  rewrite (spec_mean_delta_swap cand base), (spec_se_swap cand base), Et
    by done.
  repeat split.
  unfold spec_p_value.
  by rewrite (spec_se_swap cand base), Et, Rabs_Ropp by done.
Qed.

Lemma paired_compare_swap_witness :
  length [10; 12; 8] = length [8; 8; 8]
  /\ (1 <= length [10; 12; 8])%nat
  /\ exists d : R,
       mean_delta (paired_compare [10; 12; 8] [8; 8; 8]) = Fin d
       /\ mean_delta (paired_compare [8; 8; 8] [10; 12; 8]) = Fin (- d).
Proof.
  assert (H1 : length [10; 12; 8] = length [8; 8; 8]) by reflexivity.
  assert (H2 : (1 <= length [10; 12; 8])%nat) by (simpl; lia).
  split; [exact H1 |]. split; [exact H2 |].
  destruct (paired_compare_swap [10; 12; 8] [8; 8; 8] H1 H2)
    as (d & s & t & p & Hd & Hd' & _).
  exists d. split; [exact Hd | exact Hd'].
Defined.

(** A candidate compared with itself: no difference, no variance, no win,
    and the least significant p-value. *)
Theorem paired_compare_identical (edges : list R) :
  (1 <= length edges)%nat ->
  let s := paired_compare edges edges in
  mean_delta s = Fin 0 /\ se s = Fin 0 /\ t_stat s = Fin 0
  /\ p_value s = Fin 1 /\ win_rate s = Fin 0.
Proof.
  intros Hn. cbv zeta.
  destruct (paired_compare_eqs edges edges eq_refl Hn)
    as (_ & Hm & Hs & Ht & Hp & Hw).
  assert (Hd : forall i, spec_delta edges edges i = 0)
    by (intros i; unfold spec_delta; lra).
  assert (Em : spec_mean_delta edges edges = 0).
  { unfold spec_mean_delta. rewrite big_sum_zero by (intros; apply Hd).
    unfold Rdiv. lra. }
  assert (Es : spec_se edges edges = 0).
  { unfold spec_se, spec_std_delta.
    destruct (1 <? length edges)%nat; [| unfold Rdiv; lra].
    rewrite big_sum_zero.
    - unfold Rdiv. rewrite !Rmult_0_l, sqrt_0. lra.
    - intros i _. rewrite Hd, Em. unfold Rsqr. lra. }
  assert (E0 : Rltb 0 0 = false) by (apply Rltb_false; lra).
  rewrite Hm, Hs, Ht, Hp, Hw, Em.
  unfold spec_t_stat, spec_p_value, spec_win_rate. rewrite Es, E0.
  rewrite count_upto_none by (intros; rewrite Hd; exact E0).
  repeat split. simpl. unfold Rdiv. f_equal. lra.
Qed.

Lemma paired_compare_identical_witness :
  (1 <= length [8; 8; 8])%nat
  /\ p_value (paired_compare [8; 8; 8] [8; 8; 8]) = Fin 1.
Proof.
  assert (H1 : (1 <= length [8; 8; 8])%nat) by (simpl; lia).
  split; [exact H1 |].
  apply (paired_compare_identical [8; 8; 8] H1).
Defined.

(** The ranges of the statistics: [se] is a non-negative number,
    [win_rate] a fraction, [t_stat] has the sign of [mean_delta] whenever
    [se > 0], and without variance ([se = 0], as for a single sample) the
    comparison is never significant: [t_stat = 0] and [p_value = 1.0]. *)
Theorem paired_compare_ranges (cand base : list R) :
  length cand = length base -> (1 <= length cand)%nat ->
  exists d s t w : R,
    mean_delta (paired_compare cand base) = Fin d
    /\ se (paired_compare cand base) = Fin s
    /\ t_stat (paired_compare cand base) = Fin t
    /\ win_rate (paired_compare cand base) = Fin w
    /\ 0 <= s /\ 0 <= w <= 1
    /\ (0 < s -> t * s = d /\ (0 < t <-> 0 < d) /\ (t < 0 <-> d < 0))
    /\ (s = 0 -> t = 0 /\ p_value (paired_compare cand base) = Fin 1)
    /\ (length cand = 1%nat -> s = 0).
Proof.
  intros Hlen Hn.
  destruct (paired_compare_eqs cand base Hlen Hn)
    as (_ & Hm & Hs & Ht & Hp & Hw).
  exists (spec_mean_delta cand base), (spec_se cand base),
         (spec_t_stat cand base), (spec_win_rate cand base).
  rewrite Hp. do 4 (split; [done |]).
  pose proof (INR_length_pos cand Hn) as Hpos.
  assert (Hsq : 0 < sqrt (INR (length cand))) by (by apply sqrt_lt_R0).
  assert (Hse : 0 <= spec_se cand base).
  { unfold spec_se. apply Rmult_le_pos; [| left; by apply Rinv_0_lt_compat].
    unfold spec_std_delta. destruct (1 <? length cand)%nat; [| lra].
    apply sqrt_pos. }
  split; [exact Hse |]. split; [| split; [| split]].
  - unfold spec_win_rate. split.
    + apply Rmult_le_pos; [apply pos_INR |].
      left. by apply Rinv_0_lt_compat.
    + apply (Rmult_le_reg_r (INR (length cand))); [done |].
      unfold Rdiv. rewrite Rmult_assoc, Rinv_l by lra.
      rewrite Rmult_1_r, Rmult_1_l. apply le_INR, count_upto_le.
  - intros Hs0. unfold spec_t_stat.
    rewrite (proj2 (Rltb_true 0 (spec_se cand base)) Hs0).
    set (d := spec_mean_delta cand base). set (s0 := spec_se cand base) in *.
    clearbody d s0.
    assert (Hinv : 0 < / s0) by (by apply Rinv_0_lt_compat).
    split; [field; lra |].
    unfold Rdiv. split; split; intros H; nra.
  - intros Hs0. unfold spec_t_stat, spec_p_value. rewrite Hs0.
    by rewrite (proj2 (Rltb_false 0 0)) by lra.
  - intros H1. unfold spec_se, spec_std_delta. rewrite H1. simpl.
    unfold Rdiv. lra.
Qed.

Lemma paired_compare_ranges_witness :
  length [10] = length [8] /\ (1 <= length [10])%nat
  /\ exists s : R, se (paired_compare [10] [8]) = Fin s /\ 0 <= s.
Proof.
  assert (H1 : length [10] = length [8]) by reflexivity.
  assert (H2 : (1 <= length [10])%nat) by (simpl; lia).
  split; [exact H1 |]. split; [exact H2 |].
  destruct (paired_compare_ranges [10] [8] H1 H2)
    as (d & s & t & w & _ & Hs & _ & _ & Hs0 & _).
  exists s. split; [exact Hs | exact Hs0].
Defined.

Lemma math_erf_0 : math_erf 0 = 0.
Proof.
  unfold math_erf. rewrite (proj2 (Rleb_true 0 0)) by lra.
  unfold erf_integral. rewrite RiemannInt_P9. lra.
Qed.

(** [_normal_cdf] is one half at 0 and symmetric about it, so that a zero
    [mean_delta] gives [p_value = 1.0] also when there is variance: the two
    branches of the p-value agree where they meet. *)
Theorem normal_cdf_symmetric (x : R) (cand base : list R) :
  _normal_cdf (Fin 0) = Fin 0.5
  /\ (exists a b : R,
        _normal_cdf (Fin x) = Fin a /\ _normal_cdf (Fin (- x)) = Fin b
        /\ a + b = 1)
  /\ (length cand = length base -> (1 <= length cand)%nat ->
      mean_delta (paired_compare cand base) = Fin 0 ->
      p_value (paired_compare cand base) = Fin 1).
Proof.
  split; [| split].
  - rewrite normal_cdf_Phi. unfold Phi.
    replace (0 / sqrt 2) with 0 by (unfold Rdiv; lra).
    rewrite math_erf_0. f_equal. lra.
  - exists (Phi x), (Phi (- x)). rewrite !normal_cdf_Phi.
    repeat split. unfold Phi.
    replace (- x / sqrt 2) with (- (x / sqrt 2)) by (unfold Rdiv; lra).
    rewrite math_erf_odd. lra.
  - intros Hlen Hn Hm.
    destruct (paired_compare_eqs cand base Hlen Hn)
      as (_ & Hm' & _ & _ & Hp & _).
    rewrite Hm' in Hm. injection Hm as Hm. rewrite Hp. f_equal.
    unfold spec_p_value, spec_t_stat.
    destruct (Rltb 0 (spec_se cand base)); [| done].
    replace (spec_mean_delta cand base / spec_se cand base) with 0
      by (rewrite Hm; unfold Rdiv; lra).
    rewrite Rabs_R0. unfold Phi.
    replace (0 / sqrt 2) with 0 by (unfold Rdiv; lra).
    rewrite math_erf_0. lra.
Qed.

End PairedEvalMore.

(** * Further properties of the search protocol *)

Module SearchMore.
Import PairedEval PairedEvalFacts Reading.

(** *** Event logs *)

Lemma count_runs_app (k : nat) (l1 l2 : list event) :
  count_runs k (l1 ++ l2) = (count_runs k l1 + count_runs k l2)%nat.
Proof. unfold count_runs. by rewrite filter_app, length_app. Qed.

Lemma count_runs_cons (k : nat) (e : event) (l : list event) :
  count_runs k (e :: l)
  = ((if is_run k e then 1 else 0) + count_runs k l)%nat.
Proof.
  unfold count_runs. rewrite filter_cons.
  destruct (is_run k e); simpl; done.
Qed.

Lemma count_runs_nil (k : nat) : count_runs k [] = 0%nat.
Proof. done. Qed.

Ltac count_runs_norm :=
  repeat (rewrite count_runs_cons || rewrite count_runs_app
          || rewrite count_runs_nil);
  cbn [is_run Nat.eqb].

Section SearchMoreFacts.

Variable adapter : Type.
Variable get_name : adapter -> string.
Variable generate_strategy : string -> list (string * string) -> string.
Variable compile_source : string -> result adapter.
Variable run_match : nat -> adapter -> list R.

Local Abbreviation evaluate := (evaluate adapter get_name run_match).
Local Abbreviation source_of := (source_of generate_strategy).
Local Abbreviation stage1_loop :=
  (stage1_loop adapter get_name generate_strategy compile_source run_match).
Local Abbreviation stage_loop :=
  (stage_loop adapter get_name generate_strategy compile_source run_match).
Local Abbreviation run_search :=
  (run_search adapter get_name generate_strategy compile_source run_match).

Lemma stage1_loop_runs (n_sims : nat) (base_edges : list R)
    (cands : list cand_def) (k : nat) :
  (count_runs k (snd (stage1_loop n_sims base_edges cands))
   <= length cands)%nat
  /\ (k <> 1%nat ->
      count_runs k (snd (stage1_loop n_sims base_edges cands)) = 0%nat).
Proof.
  induction cands as [| c cands [IH1 IH2]]; simpl; [done |].
  destruct (compile_source (source_of c)),
           (stage1_loop n_sims base_edges cands) as [rs ev];
    cbn [snd] in *; rewrite count_runs_cons; cbn [is_run length].
  - destruct (Nat.eqb_spec 1 k);
      (split; [lia | intros Hk; first [lia | specialize (IH2 Hk); lia]]).
  - split; [lia | done].
Qed.

Lemma stage_loop_runs (stage n_sims : nat) (base_edges : list R)
    (promoted : list stage_result) (k : nat) :
  (count_runs k (snd (stage_loop stage n_sims base_edges promoted))
   <= length promoted)%nat
  /\ (k <> stage ->
      count_runs k (snd (stage_loop stage n_sims base_edges promoted))
      = 0%nat).
Proof.
  induction promoted as [| p promoted [IH1 IH2]]; simpl; [done |].
  destruct (compile_source (source_of (def p))); cbn [snd].
  - destruct (stage_loop stage n_sims base_edges promoted) as [r ev].
    cbn [snd] in *. rewrite count_runs_cons. cbn [is_run length].
    destruct (Nat.eqb_spec stage k);
      (split; [lia | intros Hk; first [lia | specialize (IH2 Hk); lia]]).
  - split; [unfold count_runs; simpl; lia | done].
Qed.

Lemma stage1_promoted_length (results : list stage_result) :
  (length (stage1_promoted results) <= 8)%nat.
Proof. unfold stage1_promoted. apply firstn_le_length. Qed.

Lemma stage2_promoted_length (results : list stage_result) :
  (length (stage2_promoted results) <= 3)%nat.
Proof. unfold stage2_promoted. apply firstn_le_length. Qed.

(** The simulation budget of a run, whatever the collaborators do: one
    baseline simulation in Stage 0, at most one simulation per candidate in
    Stage 1, at most 9 in Stage 2 and at most 4 in Stage 3 (the baseline and
    the promoted candidates). *)
Theorem run_search_budget (candidates : list cand_def)
    (stage1_sims stage2_sims stage3_sims : nat) :
  let log :=
    snd (run_search candidates stage1_sims stage2_sims stage3_sims) in
  (count_runs 0 log <= 1)%nat
  /\ (count_runs 1 log <= length candidates)%nat
  /\ (count_runs 2 log <= 9)%nat
  /\ (count_runs 3 log <= 4)%nat.
Proof.
  cbv zeta. unfold PairedEval.run_search.
  destruct (compile_source _) as [a_base |];
    [| cbn; repeat split; lia].
  pose proof (fun k => stage1_loop_runs stage1_sims
                         (run_match stage1_sims a_base) candidates k) as H1.
  destruct (stage1_loop stage1_sims (run_match stage1_sims a_base) candidates)
    as [rs1 ev1]. cbn [snd] in H1.
  pose proof (stage1_promoted_length rs1) as Hp1.
  destruct (stage1_promoted rs1) as [| p ps] eqn:Ep.
  { cbn [snd]. count_runs_norm.
    rewrite (proj2 (H1 0%nat)), (proj2 (H1 2%nat)), (proj2 (H1 3%nat))
      by lia.
    pose proof (proj1 (H1 1%nat)). lia. }
  unfold PairedEval.run_stage2.
  pose proof (fun k => stage_loop_runs 2 stage2_sims
                         (run_match stage2_sims a_base) (p :: ps) k) as H2.
  destruct (stage_loop 2 stage2_sims (run_match stage2_sims a_base) (p :: ps))
    as [r2 ev2]. cbn [snd] in H2.
  assert (Hbase : forall (ev : list event) (n3 : nat),
             (count_runs 0 ev = 0 /\ count_runs 1 ev = 0
              /\ count_runs 2 ev = 0 /\ count_runs 3 ev <= n3)%nat ->
             (n3 <= 4)%nat ->
             (count_runs 0 (EvRunMatch 0 (get_name a_base)
                              :: ev1 ++ EvRunMatch 2 (get_name a_base)
                              :: ev2 ++ ev) <= 1)%nat
             /\ (count_runs 1 (EvRunMatch 0 (get_name a_base)
                                 :: ev1 ++ EvRunMatch 2 (get_name a_base)
                                 :: ev2 ++ ev) <= length candidates)%nat
             /\ (count_runs 2 (EvRunMatch 0 (get_name a_base)
                                 :: ev1 ++ EvRunMatch 2 (get_name a_base)
                                 :: ev2 ++ ev) <= 9)%nat
             /\ (count_runs 3 (EvRunMatch 0 (get_name a_base)
                                 :: ev1 ++ EvRunMatch 2 (get_name a_base)
                                 :: ev2 ++ ev) <= 4)%nat).
  { intros ev n3 (E0 & E1 & E2 & E3) Hn3.
    count_runs_norm. rewrite E0, E1, E2.
    rewrite (proj2 (H1 0%nat)), (proj2 (H1 2%nat)), (proj2 (H1 3%nat))
      by lia.
    pose proof (proj1 (H1 1%nat)).
    rewrite (proj2 (H2 0%nat)), (proj2 (H2 1%nat)), (proj2 (H2 3%nat))
      by lia.
    pose proof (proj1 (H2 2%nat)).
    cbn [length] in *. lia. }
  destruct r2 as [rs2 |].
  - unfold PairedEval.after_stage2.
    destruct (negb (any_positive rs2)).
    + cbn [snd]. apply (Hbase _ 0%nat); [| lia].
      count_runs_norm. lia.
    + unfold PairedEval.run_stage3.
      pose proof (fun k => stage_loop_runs 3 stage3_sims
                             (run_match stage3_sims a_base)
                             (stage2_promoted rs2) k) as H3.
      pose proof (stage2_promoted_length rs2) as Hp2.
      destruct (stage_loop 3 stage3_sims (run_match stage3_sims a_base)
                  (stage2_promoted rs2)) as [r3 ev3]. cbn [snd] in H3.
      pose proof (proj2 (H3 0%nat) ltac:(lia)) as E0.
      pose proof (proj2 (H3 1%nat) ltac:(lia)) as E1.
      pose proof (proj2 (H3 2%nat) ltac:(lia)) as E2.
      pose proof (proj1 (H3 3%nat)) as E3.
      destruct r3 as [rs3 |]; cbn [snd];
        apply (Hbase _ (1 + length (stage2_promoted rs2))%nat);
        try lia; count_runs_norm; lia.
  - cbn [snd].
    replace (EvRunMatch 2 (get_name a_base) :: ev2)
      with (EvRunMatch 2 (get_name a_base) :: ev2 ++ [])
      by (by rewrite app_nil_r).
    apply (Hbase [] 0%nat); [| lia]. count_runs_norm. lia.
Qed.

(** *** What a run can rank *)

Lemma stage1_loop_defs (n_sims : nat) (base_edges : list R)
    (cands : list cand_def) (s : stage_result) :
  s ∈ fst (stage1_loop n_sims base_edges cands) -> def s ∈ cands.
Proof.
  induction cands as [| c cands IH]; simpl.
  - intros H. by apply elem_of_nil in H.
  - destruct (compile_source (source_of c)),
             (stage1_loop n_sims base_edges cands); simpl in *.
    + intros [-> | H]%elem_of_cons; [left | right; by apply IH].
    + intros H. right. by apply IH.
Qed.

Lemma stage_loop_results (stage n_sims : nat) (base_edges : list R)
    (promoted rs : list stage_result) :
  fst (stage_loop stage n_sims base_edges promoted) = Ok rs ->
  length rs = length promoted
  /\ forall s' : stage_result,
       s' ∈ rs -> exists s : stage_result, s ∈ promoted /\ def s' = def s.
Proof.
  revert rs. induction promoted as [| p promoted IH]; intros rs; simpl.
  - intros [= <-]. split; [done |]. intros s' H. by apply elem_of_nil in H.
  - destruct (compile_source (source_of (def p))) as [a |]; [| done].
    destruct (stage_loop stage n_sims base_edges promoted) as [[rs' |] ev];
      simpl; [| done].
    intros [= <-]. destruct (IH rs' eq_refl) as [Hlen Hdef].
    split; [simpl; by rewrite Hlen |].
    intros s' [-> | H]%elem_of_cons.
    + exists p. split; [left | done].
    + destruct (Hdef s' H) as (s & Hs & E). exists s. split; [by right | done].
Qed.

Lemma any_positive_promotes (results : list stage_result) :
  any_positive results = true -> (1 <= length (stage2_promoted results))%nat.
Proof.
  unfold any_positive, stage2_promoted.
  intros (s & Hs & Hpos)%existsb_exists.
  apply list_elem_of_In in Hs.
  assert (Hin : s ∈ filter (fun s => Is_true (fgt (md s) (Fin 0)))
                      (sort_desc results))
    by (apply list_elem_of_filter; split; [by apply Is_true_true | done]).
  destruct (filter _ (sort_desc results)) as [| x l];
    [by apply elem_of_nil in Hin | simpl; lia].
Qed.

(** Whatever a run that returns reports, it ranks evaluated candidates
    only: a stop after Stage 1 reports nothing; a stop after Stage 2 ranks
    between 1 and 8 results, none of them positive, and recommends the
    baseline; a finished run ranks between 1 and 3 results; and every
    ranked result belongs to one of the given candidates. *)
Theorem run_search_outcome (candidates : list cand_def)
    (stage1_sims stage2_sims stage3_sims : nat) (o : outcome) :
  fst (run_search candidates stage1_sims stage2_sims stage3_sims) = Ok o ->
  match o with
  | StoppedAfterStage1 r => r = NoCandidatesToReport
  | StoppedAfterStage2 ranking r =>
      (1 <= length ranking <= 8)%nat
      /\ (forall s : stage_result, s ∈ ranking -> def s ∈ candidates)
      /\ (forall s : stage_result,
            s ∈ ranking -> fgt (md s) (Fin 0) = false)
      /\ r = _print_final_summary ranking
      /\ recommends_baseline r = true
  | Finished ranking r =>
      (1 <= length ranking <= 3)%nat
      /\ (forall s : stage_result, s ∈ ranking -> def s ∈ candidates)
      /\ r = _print_final_summary ranking
  end.
Proof.
  unfold PairedEval.run_search.
  destruct (compile_source _) as [a_base |]; [| done].
  pose proof (stage1_loop_defs stage1_sims (run_match stage1_sims a_base)
                candidates) as Hd1.
  destruct (stage1_loop stage1_sims (run_match stage1_sims a_base) candidates)
    as [rs1 ev1]. cbn [fst] in Hd1.
  pose proof (stage1_promoted_length rs1) as Hp1.
  assert (Hsub1 : forall s, s ∈ stage1_promoted rs1 -> def s ∈ candidates)
    by (intros s Hs; by apply Hd1, stage1_promoted_subset).
  destruct (stage1_promoted rs1) as [| p ps] eqn:Ep.
  { cbn [fst]. by intros [= <-]. }
  unfold PairedEval.run_stage2.
  pose proof (stage_loop_results 2 stage2_sims
                (run_match stage2_sims a_base) (p :: ps)) as H2.
  destruct (stage_loop 2 stage2_sims (run_match stage2_sims a_base) (p :: ps))
    as [[rs2 |] ev2]; [| done].
  destruct (H2 rs2 eq_refl) as [Hlen2 Hdef2]. clear H2.
  assert (Hsub2 : forall s, s ∈ rs2 -> def s ∈ candidates).
  { intros s Hs. destruct (Hdef2 s Hs) as (s0 & Hs0 & ->). by apply Hsub1. }
  unfold PairedEval.after_stage2.
  destruct (any_positive rs2) eqn:Epos; cbn [negb].
  - unfold PairedEval.run_stage3.
    pose proof (stage_loop_results 3 stage3_sims
                  (run_match stage3_sims a_base) (stage2_promoted rs2))
      as H3.
    destruct (stage_loop 3 stage3_sims (run_match stage3_sims a_base)
                (stage2_promoted rs2)) as [[rs3 |] ev3]; [| done].
    destruct (H3 rs3 eq_refl) as [Hlen3 Hdef3]. clear H3.
    cbn [fst]. intros [= <-].
    pose proof (any_positive_promotes rs2 Epos).
    pose proof (stage2_promoted_length rs2).
    rewrite (Permutation_length (sort_desc_perm rs3)).
    split; [lia |]. split; [| done].
    intros s Hs. rewrite sort_desc_perm in Hs.
    destruct (Hdef3 s Hs) as (s0 & Hs0 & ->).
    by apply Hsub2, stage2_promoted_subset.
  - cbn [fst]. intros [= <-].
    rewrite (Permutation_length (sort_desc_perm rs2)).
    pose proof (proj1 (any_positive_false rs2) Epos) as Hnone.
    simpl in Hlen2, Hp1.
    split; [lia |]. split; [| split; [| split; [done |]]].
    + intros s Hs. rewrite sort_desc_perm in Hs. by apply Hsub2.
    + intros s Hs. rewrite sort_desc_perm in Hs. by apply Hnone.
    + apply summary_without_positive.
      intros s Hs. rewrite sort_desc_perm in Hs. by apply Hnone.
Qed.

(** *** Nothing to rank *)

Lemma stage1_loop_all_fail (n_sims : nat) (base_edges : list R)
    (cands : list cand_def) :
  (forall cd : cand_def,
     cd ∈ cands -> is_ok (compile_source (source_of cd)) = false) ->
  stage1_loop n_sims base_edges cands
  = ([], map (fun cd => EvCompileFailed (name cd)) cands).
Proof.
  induction cands as [| c cands IH]; intros H; [done |].
  simpl. rewrite IH by (intros; apply H; by right).
  assert (Hc : is_ok (compile_source (source_of c)) = false)
    by (apply H; left).
  by destruct (compile_source (source_of c)).
Qed.

(** When no candidate compiles (in particular when there is none), the run
    simulates the baseline once, prints one failure line per candidate in
    order, stops after Stage 1 and recommends the baseline; and when the
    baseline itself does not compile the run is aborted before anything is
    simulated. *)
Theorem run_search_nothing_to_rank (candidates : list cand_def)
    (stage1_sims stage2_sims stage3_sims : nat) :
  (forall a_base : adapter,
     compile_source (base_source generate_strategy) = Ok a_base ->
     (forall cd : cand_def,
        cd ∈ candidates ->
        is_ok (compile_source (source_of cd)) = false) ->
     run_search candidates stage1_sims stage2_sims stage3_sims
     = (Ok (StoppedAfterStage1 NoCandidatesToReport),
        EvRunMatch 0 (get_name a_base)
          :: map (fun cd => EvCompileFailed (name cd)) candidates
          ++ [EvNoSurvivors; EvSummary NoCandidatesToReport]))
  /\ (forall e : exn,
        compile_source (base_source generate_strategy) = Raise e ->
        run_search candidates stage1_sims stage2_sims stage3_sims
        = (Raise e, [])).
Proof.
  split.
  - intros a_base Hb Hall. unfold PairedEval.run_search. rewrite Hb.
    by rewrite stage1_loop_all_fail.
  - intros e Hb. unfold PairedEval.run_search. by rewrite Hb.
Qed.

End SearchMoreFacts.

(** *** The theorems at concrete inputs *)

Lemma run_search_outcome_witness :
  let e := evaluate string toy_name toy_run_edge 1 [0] "good" good_cand in
  fst (run_search string toy_name toy_generate toy_compile toy_run_edge
         [bad_cand; good_cand] 1 1 1)
  = Ok (Finished [e] (MarginalImprovement "good"))
  /\ (1 <= length [e] <= 3)%nat
  /\ (forall s : stage_result,
        s ∈ [e] -> def s ∈ [bad_cand; good_cand])
  /\ MarginalImprovement "good" = _print_final_summary [e].
Proof.
  intros e.
  assert (Hmd : md e = Fin 1).
  { unfold e, md, evaluate, paired_compare. simpl. f_equal. lra. }
  assert (Hsort : sort_desc [e] = [e]) by reflexivity.
  assert (Hge : fge (md e) (Fin (-5)) = true).
  { rewrite Hmd. apply Rleb_true. lra. }
  assert (Hgt : fgt (md e) (Fin 0) = true).
  { rewrite Hmd. apply Rltb_true. lra. }
  assert (Hrec : _print_final_summary [e] = MarginalImprovement "good").
  { unfold _print_final_summary. rewrite Hgt.
    replace (fgt (md e) (Fin 3)) with false; [done |].
    symmetry. rewrite Hmd. apply Rltb_false. lra. }
  assert (H : fst (run_search string toy_name toy_generate toy_compile
                     toy_run_edge [bad_cand; good_cand] 1 1 1)
              = Ok (Finished [e] (MarginalImprovement "good"))).
  { assert (Hp1 : stage1_promoted [e] = [e]).
    { unfold stage1_promoted, stage1_filtered. rewrite Hsort.
      by rewrite filter_cons_True by (by apply Is_true_true). }
    assert (Hpos : any_positive [e] = true).
    { unfold any_positive. rewrite Hsort. cbn [existsb]. by rewrite Hgt. }
    assert (Hp2 : stage2_promoted [e] = [e]).
    { unfold stage2_promoted. rewrite Hsort.
      by rewrite filter_cons_True by (by apply Is_true_true). }
    assert (Hb : toy_compile (base_source toy_generate)
                 = Ok "STATIC_SYM_TEMPLATE") by reflexivity.
    assert (H1 : stage1_loop string toy_name toy_generate toy_compile
                   toy_run_edge 1 (toy_run_edge 1 "STATIC_SYM_TEMPLATE")
                   [bad_cand; good_cand]
                 = ([e], [EvCompileFailed "S2"; EvRunMatch 1 "good"]))
      by reflexivity.
    assert (Hk : forall k : nat,
               stage_loop string toy_name toy_generate toy_compile
                 toy_run_edge k 1 (toy_run_edge 1 "STATIC_SYM_TEMPLATE") [e]
               = (Ok [e], [EvRunMatch k "good"]))
      by reflexivity.
    unfold run_search. rewrite Hb, H1, Hp1.
    unfold run_stage2. rewrite Hk.
    unfold after_stage2. rewrite Hpos. cbn [negb].
    unfold run_stage3. rewrite Hp2, Hk, Hsort, Hrec. reflexivity. }
  split; [exact H |].
  exact (run_search_outcome string toy_name toy_generate toy_compile
           toy_run_edge [bad_cand; good_cand] 1 1 1 _ H).
Defined.

End SearchMore.

(** * Properties of the scoring functions *)

Module ScoringFacts.
Import Scoring.

(** PnL adds up over consecutive periods, is zero when neither the
    reserves nor the fair price move, changes sign when start and end are
    exchanged, and with unchanged reserves is the X reserve times the price
    move; the spot price and the name play no part. *)
Theorem calculate_pnl_telescopes (s0 s1 s2 : AMMState) (p0 p1 p2 : Q) :
  (calculate_pnl s0 s1 p0 p1 + calculate_pnl s1 s2 p1 p2
   == calculate_pnl s0 s2 p0 p2)%Q
  /\ (calculate_pnl s0 s0 p0 p0 == 0)%Q
  /\ (calculate_pnl s1 s0 p1 p0 == - calculate_pnl s0 s1 p0 p1)%Q
  /\ (calculate_pnl s0 s0 p0 p1 == reserve_x s0 * (p1 - p0))%Q
  /\ (forall (nm : string) (sp : Q),
        calculate_pnl s0 (mkAMMState nm (reserve_x s1) (reserve_y s1) sp)
                      p0 p1
        = calculate_pnl s0 s1 p0 p1).
Proof.
  unfold calculate_pnl. cbv zeta. split; [| split; [| split; [| split]]].
  - ring.
  - ring.
  - ring.
  - ring.
  - done.
Qed.

(** [calculate_return] never divides by zero: a zero initial value gives
    0; otherwise the return times the initial value is the PnL again, a zero
    PnL gives a zero return, and the return of an unchanged position is 0. *)
Theorem calculate_return_guard (pnl initial_value : Q) :
  ((initial_value == 0)%Q -> calculate_return pnl initial_value = 0%Q)
  /\ (~ (initial_value == 0)%Q ->
      (calculate_return pnl initial_value * initial_value == pnl)%Q
      /\ (calculate_return 0 initial_value == 0)%Q)
  /\ (forall (s : AMMState) (p : Q),
        (calculate_return (calculate_pnl s s p p) initial_value == 0)%Q).
Proof.
  unfold calculate_return. repeat split.
  - intros H. by rewrite (proj2 (Qeq_bool_iff _ _) H).
  - destruct (Qeq_bool initial_value 0) eqn:E.
    + apply Qeq_bool_iff in E. contradiction.
    + field. done.
  - destruct (Qeq_bool initial_value 0) eqn:E; [done |].
    field. by apply Qeq_bool_neq.
  - intros s p. destruct (Qeq_bool initial_value 0) eqn:E; [done |].
    unfold calculate_pnl. cbv zeta. field. by apply Qeq_bool_neq.
Qed.

End ScoringFacts.

(** * Properties of the static fee sweep *)

Module SweepFacts.
Import Sweep.

Lemma dict_set_elem (d : list (Z * R)) (k0 k : Z) (v0 v : R) :
  (k, v) ∈ dict_set d k0 v0 -> (k = k0 /\ v = v0) \/ (k, v) ∈ d.
Proof.
  induction d as [| [k' v'] d IH]; simpl.
  - intros [= -> ->]%list_elem_of_singleton. by left.
  - destruct (Z.eqb_spec k' k0) as [-> | Hne].
    + intros [[= -> ->] | H]%elem_of_cons; [by left |].
      right. by right.
    + intros [[= -> ->] | H]%elem_of_cons; [right; left |].
      destruct (IH H) as [? | ?]; [by left | right; by right].
Qed.

Lemma dict_set_new (d : list (Z * R)) (k0 : Z) (v0 : R) :
  (k0, v0) ∈ dict_set d k0 v0.
Proof.
  induction d as [| [k' v'] d IH]; simpl; [left |].
  destruct (Z.eqb_spec k' k0); [left | by right].
Qed.

Lemma dict_set_other (d : list (Z * R)) (k0 k : Z) (v0 v : R) :
  k <> k0 -> (k, v) ∈ d -> (k, v) ∈ dict_set d k0 v0.
Proof.
  intros Hne. induction d as [| [k' v'] d IH]; simpl.
  - intros H. by apply elem_of_nil in H.
  - destruct (Z.eqb_spec k' k0) as [-> | Hne'].
    + intros [[= -> ->] | H]%elem_of_cons; [done | by right].
    + intros [[= -> ->] | H]%elem_of_cons; [left | right; by apply IH].
Qed.

Lemma sweep_loop_sound (run : Z -> result (option R)) (fees : list Z)
    (d d' : list (Z * R)) (k : Z) (v : R) :
  sweep_loop run fees d = Ok d' -> (k, v) ∈ d' ->
  (k, v) ∈ d \/ (k ∈ fees /\ run k = Ok (Some v)).
Proof.
  revert d. induction fees as [| bps fees IH]; intros d; simpl.
  - intros [= ->]. by left.
  - destruct (run bps) as [[edge |] |] eqn:E; [| | done].
    + intros Hl [H | [H1 H2]]%(IH _ Hl).
      * apply dict_set_elem in H as [[-> ->] | H]; [| by left].
        right. split; [left | done].
      * right. split; [by right | done].
    + intros Hl [H | [H1 H2]]%(IH _ Hl); [by left |].
      right. split; [by right | done].
Qed.

Lemma sweep_loop_keeps (run : Z -> result (option R)) (fees : list Z)
    (d d' : list (Z * R)) (k : Z) (v : R) :
  run k = Ok (Some v) -> sweep_loop run fees d = Ok d' ->
  (k, v) ∈ d -> (k, v) ∈ d'.
Proof.
  intros Hrun. revert d.
  induction fees as [| bps fees IH]; intros d; simpl.
  - by intros [= ->].
  - destruct (run bps) as [[edge |] |] eqn:E; [| by apply IH | done].
    intros Hl H. apply (IH _ Hl).
    destruct (Z.eq_dec k bps) as [-> | Hne].
    + rewrite Hrun in E. injection E as <-. apply dict_set_new.
    + by apply dict_set_other.
Qed.

Lemma sweep_loop_complete (run : Z -> result (option R)) (fees : list Z)
    (d d' : list (Z * R)) (k : Z) (v : R) :
  k ∈ fees -> run k = Ok (Some v) -> sweep_loop run fees d = Ok d' ->
  (k, v) ∈ d'.
Proof.
  intros Hin Hrun. revert d.
  induction fees as [| bps fees IH]; intros d; [by apply elem_of_nil in Hin |].
  simpl. apply elem_of_cons in Hin as [<- | Hin].
  - rewrite Hrun. intros Hl.
    apply (sweep_loop_keeps run fees _ d' k v Hrun Hl), dict_set_new.
  - destruct (run bps) as [[edge |] |]; [| | done]; by apply IH.
Qed.

(** A loop that ends has run every fee, and every run returned. *)
Lemma sweep_loop_returns (run : Z -> result (option R)) (fees : list Z)
    (d d' : list (Z * R)) (k : Z) :
  sweep_loop run fees d = Ok d' -> k ∈ fees -> is_ok (run k) = true.
Proof.
  revert d. induction fees as [| bps fees IH]; intros d; simpl.
  - intros _ H. by apply elem_of_nil in H.
  - destruct (run bps) as [[edge |] |] eqn:E; [| | done];
      intros Hl [-> | Hin]%elem_of_cons;
      try (by rewrite E); by apply (IH _ Hl).
Qed.

(** A loop that is left by an exception was left at the first fee whose
    run raised, with that exception. *)
Lemma sweep_loop_raises (run : Z -> result (option R)) (fees : list Z)
    (d : list (Z * R)) (e : exn) :
  sweep_loop run fees d = Raise e ->
  exists (ran : list Z) (bps : Z) (rest : list Z),
    fees = ran ++ bps :: rest
    /\ run bps = Raise e
    /\ forall k : Z, k ∈ ran -> is_ok (run k) = true.
Proof.
  revert d. induction fees as [| bps fees IH]; intros d; simpl; [done |].
  destruct (run bps) as [[edge |] |] eqn:E.
  - intros (l1 & k & l2 & -> & Hk & Hl1)%IH.
    exists (bps :: l1), k, l2. split; [done |]. split; [done |].
    intros k' [-> | H]%elem_of_cons; [by rewrite E | by apply Hl1].
  - intros (l1 & k & l2 & -> & Hk & Hl1)%IH.
    exists (bps :: l1), k, l2. split; [done |]. split; [done |].
    intros k' [-> | H]%elem_of_cons; [by rewrite E | by apply Hl1].
  - intros [= ->]. exists [], bps, fees. split; [done |]. split; [done |].
    intros k' H. by apply elem_of_nil in H.
Qed.

Lemma max_from_spec (best : Z * R) (d : list (Z * R)) :
  max_from best d ∈ best :: d
  /\ forall kv : Z * R, kv ∈ best :: d -> snd kv <= snd (max_from best d).
Proof.
  revert best. induction d as [| kv d IH]; intros best; simpl.
  - split; [left |]. intros kv' ->%list_elem_of_singleton. lra.
  - destruct (IH (if Rltb (snd best) (snd kv) then kv else best))
      as [Hin Hmax].
    split.
    + apply elem_of_cons in Hin as [-> | Hin]; [| by do 2 right].
      destruct (Rltb (snd best) (snd kv)); [right; left | left].
    + intros kv' Hkv'.
      assert (Hb : snd best <= snd (if Rltb (snd best) (snd kv)
                                    then kv else best)
                   /\ snd kv <= snd (if Rltb (snd best) (snd kv)
                                     then kv else best)).
      { destruct (Rltb (snd best) (snd kv)) eqn:E.
        - apply Rltb_true in E. lra.
        - apply Rltb_false in E. lra. }
      pose proof (Hmax _ ltac:(left)) as Htop.
      apply elem_of_cons in Hkv' as [-> | Hkv']; [lra |].
      apply elem_of_cons in Hkv' as [-> | Hkv']; [lra |].
      apply Hmax. by right.
Qed.

(** The sweep ends in one of three ways.  With a summary line: every run
    returned, the line names a fee of the list whose run gave an edge, with
    that edge, and no run gave a larger one.  With no summary line: every
    run returned without an edge.  With an exception: it is the exception
    of the first fee whose run raised, every fee before it returned, and
    nothing is summarised. *)
Theorem main_best (run_strategy : Z -> result (option R)) :
  match main run_strategy with
  | Ok (Some (bps, edge)) =>
      (forall k : Z, k ∈ FEE_VALUES -> is_ok (run_strategy k) = true)
      /\ bps ∈ FEE_VALUES /\ run_strategy bps = Ok (Some edge)
      /\ forall (k : Z) (e : R),
           k ∈ FEE_VALUES -> run_strategy k = Ok (Some e) -> e <= edge
  | Ok None => forall k : Z, k ∈ FEE_VALUES -> run_strategy k = Ok None
  | Raise e =>
      exists (ran : list Z) (bps : Z) (rest : list Z),
        FEE_VALUES = ran ++ bps :: rest
        /\ run_strategy bps = Raise e
        /\ forall k : Z, k ∈ ran -> is_ok (run_strategy k) = true
  end.
Proof.
  unfold main.
  destruct (sweep_loop run_strategy FEE_VALUES []) as [results | e] eqn:El;
    [| by apply (sweep_loop_raises _ _ [])].
  pose proof (sweep_loop_sound run_strategy FEE_VALUES [] results) as Hs.
  pose proof (fun k v Hk Hr =>
                sweep_loop_complete run_strategy FEE_VALUES [] results k v
                  Hk Hr El) as Hc.
  pose proof (fun k => sweep_loop_returns run_strategy FEE_VALUES [] results
                         k El) as Hok.
  unfold best_of. destruct results as [| kv d].
  - intros k Hk. specialize (Hok k Hk).
    destruct (run_strategy k) as [[v |] |] eqn:E; [| done | done].
    specialize (Hc k v Hk E). by apply elem_of_nil in Hc.
  - destruct (max_from_spec kv d) as [Hin Hmax].
    destruct (max_from kv d) as [bps edge].
    destruct (Hs bps edge El Hin) as [H | [H1 H2]];
      [by apply elem_of_nil in H |].
    split; [exact Hok |]. split; [done |]. split; [done |].
    intros k e Hk Hrun. apply (Hmax (k, e)). by apply Hc.
Qed.

(** One run whose matched text [float] rejects ends the sweep: the fees
    after it are not run and nothing is summarised. *)
Lemma main_aborts_on_bad_float :
  main (fun bps => if (bps =? 30)%Z then Raise ValueError else Ok (Some 1))
  = Raise ValueError.
Proof. reflexivity. Qed.

End SweepFacts.

(** * Properties of the compilation result *)

Module CompilerFacts.
Import Compiler.

Lemma classify_errors (ds : list diagnostic) :
  fst (classify ds) = [] <-> forall d, d ∈ ds -> is_error d = false.
Proof.
  induction ds as [| d ds IH]; simpl.
  - split; [| done]. intros _ d H. by apply elem_of_nil in H.
  - destruct (classify ds) as [es ws]. simpl in IH. unfold is_error in *.
    destruct (String.eqb (diagnostic_severity d) "error") eqn:E; simpl.
    + split; [done |]. intros H. specialize (H d ltac:(left)). congruence.
    + assert (Hes : (if String.eqb (diagnostic_severity d) "warning"
                     then (es, diagnostic_text d :: ws) else (es, ws)).1
                    = es) by (by destruct (String.eqb _ "warning")).
      rewrite Hes, IH. split.
      * intros H d' [-> | Hd]%elem_of_cons; [done | by apply H].
      * intros H d' Hd. apply H. by right.
Qed.

(** The two shapes of a [CompilationResult]. *)
Lemma compile_shape (run : solc_run) (contract_name : string) :
  let r := compile run contract_name in
  (success r = true ->
   errors r = None
   /\ (exists code : list Z, bytecode r = Some code)
   /\ (exists a : list string, abi r = Some a)
   /\ (exists ws : list string, warnings r = Some ws))
  /\ (success r = false ->
      bytecode r = None /\ deployed_bytecode r = None /\ abi r = None
      /\ exists (e : error_text) (es : list error_text),
           errors r = Some (e :: es)).
Proof.
  cbv zeta. unfold compile.
  destruct run as [output | text | text]; simpl; try (split; [done |]; eauto 10).
  destruct (match output_errors output with
            | Some ds => classify ds
            | None => ([], [])
            end) as [[| e es] ws]; simpl;
    [| split; [done |]; eauto 10].
  destruct (strategy_contracts output !! contract_name) as [c |]; simpl;
    [| split; [done |]; eauto 10].
  destruct (String.eqb (text_or_empty (bytecode_object c)) ""); simpl;
    [split; [done |]; eauto 10 |].
  destruct (fromhex (text_or_empty (bytecode_object c))) as [code |]; simpl;
    [| split; [done |]; eauto 10].
  destruct (String.eqb (text_or_empty (deployedBytecode_object c)) "");
    simpl; [split; [eauto 10 | done] |].
  destruct (fromhex (text_or_empty (deployedBytecode_object c)));
    simpl; [split; [eauto 10 | done] | split; [done |]; eauto 10].
Qed.

(** A result is one of two shapes.  A successful one carries bytecode, an
    ABI and the warnings, and no errors; a failed one carries at least one
    error and neither bytecode nor ABI. *)
Theorem compile_result_shape (run : solc_run) (contract_name : string) :
  let r := compile run contract_name in
  (success r = true ->
   errors r = None
   /\ (exists code : list Z, bytecode r = Some code)
   /\ (exists a : list string, abi r = Some a)
   /\ (exists ws : list string, warnings r = Some ws))
  /\ (success r = false ->
      bytecode r = None /\ deployed_bytecode r = None /\ abi r = None
      /\ exists (e : error_text) (es : list error_text),
           errors r = Some (e :: es)).
Proof. exact (compile_shape run contract_name). Qed.

(** [compile] succeeds exactly when solc returned an output in which no
    diagnostic has severity ["error"] (a missing severity counts as one),
    the requested contract is there, its bytecode hex is not empty and
    decodes, and its deployed bytecode hex is empty or decodes.  Warnings
    never make it fail. *)
Theorem compile_success_iff (run : solc_run) (contract_name : string) :
  success (compile run contract_name) = true <->
  exists (output : solc_output) (c : contract_output) (code : list Z),
    run = Compiled output
    /\ (forall (ds : list diagnostic) (d : diagnostic),
          output_errors output = Some ds -> d ∈ ds -> is_error d = false)
    /\ strategy_contracts output !! contract_name = Some c
    /\ text_or_empty (bytecode_object c) <> ""
    /\ fromhex (text_or_empty (bytecode_object c)) = Some code
    /\ (text_or_empty (deployedBytecode_object c) = ""
        \/ exists deployed : list Z,
             fromhex (text_or_empty (deployedBytecode_object c))
             = Some deployed).
Proof.
  unfold compile. split.
  - destruct run as [output | text | text]; simpl; try done.
    destruct (output_errors output) as [ds |] eqn:Eds.
    + pose proof (classify_errors ds) as Hcl.
      destruct (classify ds) as [[| e es] ws]; simpl in *; [| done].
      destruct (strategy_contracts output !! contract_name) as [c |] eqn:Ec;
        simpl; [| done].
      destruct (String.eqb_spec (text_or_empty (bytecode_object c)) "");
        simpl; [done |].
      destruct (fromhex (text_or_empty (bytecode_object c))) as [code |] eqn:Ef;
        simpl; [| done].
      intros Hs. exists output, c, code. rewrite Eds.
      repeat split; try done.
      * intros ds' d [= <-]. by apply Hcl.
      * destruct (String.eqb_spec
                    (text_or_empty (deployedBytecode_object c)) "");
          [by left |].
        destruct (fromhex (text_or_empty (deployedBytecode_object c)));
          [right; eauto | done].
    + simpl.
      destruct (strategy_contracts output !! contract_name) as [c |] eqn:Ec;
        simpl; [| done].
      destruct (String.eqb_spec (text_or_empty (bytecode_object c)) "");
        simpl; [done |].
      destruct (fromhex (text_or_empty (bytecode_object c))) as [code |] eqn:Ef;
        simpl; [| done].
      intros Hs. exists output, c, code. rewrite Eds.
      repeat split; try done.
      destruct (String.eqb_spec
                  (text_or_empty (deployedBytecode_object c)) "");
        [by left |].
      destruct (fromhex (text_or_empty (deployedBytecode_object c)));
        [right; eauto | done].
  - intros (output & c & code & -> & Hds & Hc & Hne & Hf & Hdep).
    assert (Hes : (match output_errors output with
                   | Some ds => classify ds
                   | None => ([], [])
                   end).1 = []).
    { destruct (output_errors output) as [ds |] eqn:Eds; [| done].
      apply classify_errors. intros d Hd. by apply (Hds ds). }
    destruct (match output_errors output with
              | Some ds => classify ds
              | None => ([], [])
              end) as [es ws]. simpl in Hes. subst es. simpl.
    rewrite Hc. simpl.
    destruct (String.eqb_spec (text_or_empty (bytecode_object c)) "");
      [done |].
    rewrite Hf.
    destruct (String.eqb_spec (text_or_empty (deployedBytecode_object c)) "");
      [done |].
    destruct Hdep as [Hd | [deployed ->]]; done.
Qed.

(** [compile_and_get_bytecode] either returns bytecode and ABI that are
    really there, from a successful compilation, or raises with at least one
    error from a failed one. *)
Theorem compile_and_get_bytecode_spec (run : solc_run) :
  match compile_and_get_bytecode run with
  | inr (code, a) =>
      success (compile run "Strategy") = true
      /\ (exists c : list Z, code = Some c)
      /\ (exists l : list string, a = Some l)
  | inl es =>
      success (compile run "Strategy") = false
      /\ exists (e : error_text) (es' : list error_text), es = e :: es'
  end.
Proof.
  unfold compile_and_get_bytecode.
  destruct (compile_shape run "Strategy") as [Hok Hfail].
  destruct (success (compile run "Strategy")); simpl.
  - destruct (Hok eq_refl) as (_ & Hc & Ha & _). done.
  - destruct (Hfail eq_refl) as (_ & _ & _ & e & es & ->). eauto.
Qed.

Lemma hex_digit_range (c : Ascii.ascii) (h : Z) :
  hex_digit c = Some h -> (0 <= h < 16)%Z.
Proof.
  unfold hex_digit. set (n := Z.of_N (Ascii.N_of_ascii c)).
  destruct (Z.leb_spec 48 n), (Z.leb_spec n 57); simpl;
    try (intros [= <-]; lia);
    destruct (Z.leb_spec 97 n), (Z.leb_spec n 102); simpl;
    try (intros [= <-]; lia);
    destruct (Z.leb_spec 65 n), (Z.leb_spec n 70); simpl;
    try (intros [= <-]; lia); done.
Qed.

Lemma fromhex_bytes_upto (k : nat) (s : string) (l : list Z) :
  (String.length s <= k)%nat -> fromhex s = Some l ->
  Forall (fun b => (0 <= b < 256)%Z) l
  /\ (2 * length l <= String.length s)%nat.
Proof.
  revert s l. induction k as [| k IH]; intros s l Hlen.
  - destruct s; [| simpl in Hlen; lia]. simpl. intros [= <-].
    split; [constructor | simpl; lia].
  - destruct s as [| c s]; simpl.
    { intros [= <-]. split; [constructor | simpl; lia]. }
    simpl in Hlen. destruct (is_space c).
    + intros H. destruct (IH s l ltac:(lia) H). split; [done | lia].
    + destruct (hex_digit c) as [h |] eqn:Eh; [| done].
      destruct s as [| d s]; [done |].
      destruct (hex_digit d) as [lo |] eqn:El; [| done].
      destruct (fromhex s) as [rest |] eqn:Er; [| done].
      intros [= <-]. simpl in Hlen.
      destruct (IH s rest ltac:(lia) Er) as [Hb Hl].
      apply hex_digit_range in Eh, El.
      split; [constructor; [lia | done] | simpl; lia].
Qed.

(** Whatever [bytes.fromhex] decodes is a sequence of bytes, each between
    0 and 255, at most one for every two characters of the text; and
    leading white space does not change the result. *)
Theorem fromhex_bytes (s : string) (l : list Z) :
  fromhex s = Some l ->
  Forall (fun b => (0 <= b < 256)%Z) l
  /\ (2 * length l <= String.length s)%nat
  /\ fromhex (String (Ascii.ascii_of_nat 32) s) = Some l.
Proof.
  intros H.
  destruct (fromhex_bytes_upto (String.length s) s l (Nat.le_refl _) H).
  repeat split; done.
Qed.

Lemma fromhex_bytes_witness :
  fromhex "60ff 0a" = Some [96; 255; 10]%Z
  /\ Forall (fun b => (0 <= b < 256)%Z) [96; 255; 10]%Z.
Proof.
  assert (H : fromhex "60ff 0a" = Some [96; 255; 10]%Z) by reflexivity.
  split; [exact H |].
  apply (fromhex_bytes "60ff 0a" [96; 255; 10]%Z H).
Defined.

End CompilerFacts.
